(** * firefiles: the S3 drive provider (apps/web/hooks/useS3.tsx)

    A shallow embedding of the storage core of the S3 provider: how object
    keys are built and split, the persisted folder index, the tag editor, the
    paginated listing of a folder visit and the recursive folder delete.

    JavaScript strings are modelled by [string]; a character is a code unit
    below 256.  The S3 client, the signer, the MIME table and
    [decodeURIComponent] are collaborators of the hook and are taken as
    parameters. *)

From Stdlib Require Import String Ascii List Bool Arith Lia.
Import ListNotations.
Open Scope string_scope.
Open Scope list_scope.

(* ================================================================== *)
(** ** String primitives used by the hook *)

Module JsString.

(** [s.split(sep)] for a one-character separator; the source only ever
    splits on the slash.  The result is never the empty array. *)
Fixpoint split (sep : ascii) (s : string) : list string :=
  match s with
  | EmptyString => [EmptyString]
  | String c s' =>
      if Ascii.eqb c sep then EmptyString :: split sep s'
      else match split sep s' with
           | [] => [String c EmptyString]
           | h :: t => String c h :: t
           end
  end.

(** [arr.pop()] read for its value only: the last element.  [undefined]
    (the empty array) is rendered by the empty string; [split] never
    produces that case. *)
Definition pop (l : list string) : string := last l EmptyString.

(** [s.includes(t)]: [t] occurs in [s] at some position. *)
Fixpoint includes (s t : string) : bool :=
  String.prefix t s ||
  match s with
  | EmptyString => false
  | String _ s' => includes s' t
  end.

(** White space in the sense of [String.prototype.trim], restricted to the
    code units below 256: TAB, LF, VT, FF, CR, SP and NBSP. *)
Definition isWhiteSpace (c : ascii) : bool :=
  let n := nat_of_ascii c in
  ((9 <=? n)%nat && (n <=? 13)%nat) || (n =? 32)%nat || (n =? 160)%nat.

Fixpoint trimStart (s : string) : string :=
  match s with
  | EmptyString => EmptyString
  | String c s' => if isWhiteSpace c then trimStart s' else s
  end.

Fixpoint trimEnd (s : string) : string :=
  match s with
  | EmptyString => EmptyString
  | String c s' =>
      match trimEnd s' with
      | EmptyString => if isWhiteSpace c then EmptyString else String c EmptyString
      | t => String c t
      end
  end.

Definition trim (s : string) : string := trimEnd (trimStart s).

(** [arr.shift()] read for its value only: the first element. *)
Definition shift (l : list string) : string := hd EmptyString l.

(** [s.slice(0, -1)]: the string without its last character. *)
Fixpoint slice_0_m1 (s : string) : string :=
  match s with
  | EmptyString => EmptyString
  | String _ EmptyString => EmptyString
  | String c s' => String c (slice_0_m1 s')
  end.

(** Truthiness of a string: the empty string is the only falsy one. *)
Definition truthy (s : string) : bool :=
  match s with EmptyString => false | _ => true end.

Definition startsWithWhiteSpace (s : string) : bool :=
  match s with EmptyString => false | String c _ => isWhiteSpace c end.

Fixpoint endsWithWhiteSpace (s : string) : bool :=
  match s with
  | EmptyString => false
  | String c EmptyString => isWhiteSpace c
  | String _ s' => endsWithWhiteSpace s'
  end.

Fixpoint contains_char (c : ascii) (s : string) : bool :=
  match s with
  | EmptyString => false
  | String d s' => Ascii.eqb d c || contains_char c s'
  end.

Fixpoint endsWithChar (c : ascii) (s : string) : bool :=
  match s with
  | EmptyString => false
  | String d EmptyString => Ascii.eqb d c
  | String _ s' => endsWithChar c s'
  end.

End JsString.

Import JsString.

(* ================================================================== *)
(** ** Data model (@util/types, as far as the hook uses it) *)

Record DriveFolder := mkDriveFolder {
  folder_name : string;
  folder_fullPath : string;
  folder_parent : string;
  folder_createdAt : option string;
  folder_bucketName : string;
  folder_bucketUrl : string
}.

Record DriveFile := mkDriveFile {
  file_fullPath : string;
  file_name : string;
  file_parent : string;
  file_createdAt : string;
  file_size : string;
  file_contentType : string;
  file_bucketName : string;
  file_bucketUrl : string;
  file_url : string
}.

(** A tag as the hook's callers see it ([{key, value}]) and as the tagging
    commands carry it ([{Key, Value}]). *)
Record Tag := mkTag { key : string; value : string }.
Record S3Tag := mkS3Tag { Key : string; Value : string }.

(** The folder the session is in.  [currentFolder === ROOT_FOLDER] compares
    object identity, so the root object is a constructor of its own: a folder
    object built by the navigation effect is never identical to it. *)
Inductive CurrentFolder :=
| ROOT_FOLDER
| NamedFolder (f : DriveFolder).

(** Modelled from the spec: [ROOT_FOLDER] is imported from useBucket, which
    is not among the sources; its path is the empty string ("empty for
    root"). *)
Definition ROOT_FOLDER_fullPath : string := EmptyString.

Definition currentFolder_fullPath (cf : CurrentFolder) : string :=
  match cf with
  | ROOT_FOLDER => ROOT_FOLDER_fullPath
  | NamedFolder f => folder_fullPath f
  end.

(* ================================================================== *)
(** ** The S3 client and the other collaborators *)

Inductive Error :=
| TypeError (message : string)
| URIError (message : string)
| ServiceException (message : string).

Definition message (err : Error) : string :=
  match err with
  | TypeError m | URIError m | ServiceException m => m
  end.

Record S3Object := mkS3Object {
  obj_Key : string;
  obj_LastModified : string;   (* the date, already in ISO form *)
  obj_Size : string            (* the size, already in decimal form *)
}.

Record ListObjectsV2Input := mkListInput {
  in_Bucket : string;
  in_Prefix : string;
  in_Delimiter : option string;
  in_ContinuationToken : option string
}.

(** The fields of a listing page the hook reads.  [Contents] and
    [CommonPrefixes] may be [undefined]; [ContinuationToken] is the page's
    own field of that name, next to [NextContinuationToken]. *)
Record ListObjectsV2Output := mkListOutput {
  out_Contents : option (list S3Object);
  out_CommonPrefixes : option (list string);
  out_IsTruncated : bool;
  out_Name : string;
  out_ContinuationToken : option string;
  out_NextContinuationToken : option string
}.

Inductive Command :=
| ListObjectsV2Command (input : ListObjectsV2Input)
| DeleteObjectsCommand (Bucket : string) (Objects : list string)
| GetObjectTaggingCommand (Bucket fileKey : string)
| PutObjectTaggingCommand (Bucket fileKey : string) (TagSet : list S3Tag).

(** [s3Client.send], one operation per command the hook sends.  The store
    behind the client is a state of type [Remote]; every request may change
    it and may fail. *)
Record S3Client := mkS3Client {
  Remote : Type;
  listObjectsV2 : Remote -> ListObjectsV2Input -> Remote * (Error + ListObjectsV2Output);
  deleteObjects : Remote -> string -> list string -> Remote * option Error;
  getObjectTagging : Remote -> string -> string -> Remote * (Error + list S3Tag);
  putObjectTagging : Remote -> string -> string -> list S3Tag -> Remote * option Error
}.

(** What the provider gets from its props and its imports: the drive
    ([data.keys.Bucket], [data.keys.bucketUrl]), the tag capability
    ([enableTags], computed from [data.type] with the Provider enum of
    @util/types), [decodeURIComponent] (which may throw), [mime.lookup] and
    [getSignedUrl] (which may reject). *)
Record Drive := mkDrive {
  data_keys_Bucket : string;
  data_keys_bucketUrl : string;
  enableTags : bool;
  decodeURIComponent : string -> Error + string;
  mime_lookup : string -> option string;
  getSignedUrl : string -> string -> option string
}.

(* ================================================================== *)
(** ** Effects: the world of the provider and asynchronous computations *)

(** The state of an [async] function's promise.  [Pending] is what a bounded
    run reports when it has not settled yet. *)
Inductive Promise (A : Type) :=
| Fulfilled (a : A)
| Rejected (e : Error)
| Pending.

Arguments Fulfilled {A} a.
Arguments Rejected {A} e.
Arguments Pending {A}.

Section Provider.

Variable client : S3Client.
Variable data : Drive.
(** [user?.email] of the signed-in user. *)
Variable user_email : option string.

(** Everything the provider reads and writes: the store behind the client,
    the commands sent so far (oldest first), the error toasts shown, the
    [local_folders_<id>] item of localStorage ([None] when absent, else the
    parsed array) and the React state. *)
Record World := mkWorld {
  remote : Remote client;
  sent : list Command;
  toasts : list string;
  localStorage : option (list DriveFolder);
  currentFolder : option CurrentFolder;
  folders : option (list DriveFolder);
  files : option (list DriveFile);
  loading : bool
}.

Definition M (A : Type) : Type := World -> World * Promise A.

Definition ret {A} (a : A) : M A := fun w => (w, Fulfilled a).

Definition throw {A} (e : Error) : M A := fun w => (w, Rejected e).

Definition bind {A B} (m : M A) (f : A -> M B) : M B :=
  fun w =>
    match m w with
    | (w', Fulfilled a) => f a w'
    | (w', Rejected e) => (w', Rejected e)
    | (w', Pending) => (w', Pending)
    end.

(** [try { m } catch (err) { h err }] *)
Definition try_catch {A} (m : M A) (h : Error -> M A) : M A :=
  fun w =>
    match m w with
    | (w', Rejected e) => h e w'
    | r => r
    end.

Notation "x <- m ;; k" := (bind m (fun x => k))
  (at level 61, m at next level, right associativity).
Notation "m ;;; k" := (bind m (fun _ => k))
  (at level 61, right associativity).

Definition set_remote (r : Remote client) (w : World) : World :=
  mkWorld r (sent w) (toasts w) (localStorage w) (currentFolder w)
    (folders w) (files w) (loading w).

Definition log (c : Command) (w : World) : World :=
  mkWorld (remote w) (sent w ++ [c]) (toasts w) (localStorage w) (currentFolder w)
    (folders w) (files w) (loading w).

Definition toast_error (msg : string) : M unit :=
  fun w =>
    (mkWorld (remote w) (sent w) (toasts w ++ [msg]) (localStorage w) (currentFolder w)
       (folders w) (files w) (loading w),
     Fulfilled tt).

Definition settle {A} (r : Error + A) : Promise A :=
  match r with inl e => Rejected e | inr a => Fulfilled a end.

Definition settle_unit (r : option Error) : Promise unit :=
  match r with Some e => Rejected e | None => Fulfilled tt end.

Definition send_ListObjectsV2 (input : ListObjectsV2Input) : M ListObjectsV2Output :=
  fun w =>
    let (r, res) := listObjectsV2 client (remote w) input in
    (set_remote r (log (ListObjectsV2Command input) w), settle res).

Definition send_DeleteObjects (Bucket : string) (Objects : list string) : M unit :=
  fun w =>
    let (r, res) := deleteObjects client (remote w) Bucket Objects in
    (set_remote r (log (DeleteObjectsCommand Bucket Objects) w), settle_unit res).

Definition send_GetObjectTagging (Bucket fileKey : string) : M (list S3Tag) :=
  fun w =>
    let (r, res) := getObjectTagging client (remote w) Bucket fileKey in
    (set_remote r (log (GetObjectTaggingCommand Bucket fileKey) w), settle res).

Definition send_PutObjectTagging (Bucket fileKey : string) (TagSet : list S3Tag) : M unit :=
  fun w =>
    let (r, res) := putObjectTagging client (remote w) Bucket fileKey TagSet in
    (set_remote r (log (PutObjectTaggingCommand Bucket fileKey TagSet) w), settle_unit res).

(* ------------------------------------------------------------------ *)
(** *** Tags *)

(** [listTags]: [None] is the [undefined] of a bare [return] and of the
    [catch] branch. *)
Definition listTags (file : DriveFile) : M (option (list Tag)) :=
  try_catch
    (if negb (enableTags data) then ret None
     else
       TagSet <- send_GetObjectTagging (data_keys_Bucket data) (file_fullPath file) ;;
       ret (Some (map (fun tag => mkTag (Key tag) (Value tag)) TagSet)))
    (fun err => toast_error ("Error: " ++ message err) ;;; ret None).

Definition addTags (file : DriveFile) (key value : string) : M bool :=
  if negb (truthy (trim key)) then
    toast_error "Error: Tag key is blank." ;;; ret false
  else
    let key := trim key in
    currentTags <- send_GetObjectTagging (data_keys_Bucket data) (file_fullPath file) ;;
    let currentTags := currentTags ++ [mkS3Tag key value] in
    try_catch
      (send_PutObjectTagging (data_keys_Bucket data) (file_fullPath file) currentTags ;;;
       ret true)
      (fun err => toast_error ("Error: " ++ message err) ;;; ret false).

Definition removeTags (file : DriveFile) (key : string) : M bool :=
  existingTags <- send_GetObjectTagging (data_keys_Bucket data) (file_fullPath file) ;;
  let updatedTags := filter (fun tag => negb (String.eqb (Key tag) key)) existingTags in
  try_catch
    (send_PutObjectTagging (data_keys_Bucket data) (file_fullPath file) updatedTags ;;;
     ret true)
    (fun err => toast_error ("Error: " ++ message err) ;;; ret false).

Definition editTags (file : DriveFile) (prevTag newTag : Tag) : M bool :=
  removed <- removeTags file (key prevTag) ;;
  if negb removed then ret false
  else
    added <- addTags file (key newTag) (value newTag) ;;
    if added then ret true
    else
      addTags file (key prevTag) (value prevTag) ;;;
      toast_error "Error: Tag not edited." ;;;
      ret false.

(* ------------------------------------------------------------------ *)
(** *** React state and localStorage *)

Definition setLoading (b : bool) : M unit :=
  fun w => (mkWorld (remote w) (sent w) (toasts w) (localStorage w) (currentFolder w)
              (folders w) (files w) b, Fulfilled tt).

Definition setCurrentFolder (cf : CurrentFolder) : M unit :=
  fun w => (mkWorld (remote w) (sent w) (toasts w) (localStorage w) (Some cf)
              (folders w) (files w) (loading w), Fulfilled tt).

(** [setFolders(update)], the updater applied to the previous state. *)
Definition setFolders (update : option (list DriveFolder) -> option (list DriveFolder))
  : M unit :=
  fun w => (mkWorld (remote w) (sent w) (toasts w) (localStorage w) (currentFolder w)
              (update (folders w)) (files w) (loading w), Fulfilled tt).

Definition setFiles (update : option (list DriveFile) -> option (list DriveFile)) : M unit :=
  fun w => (mkWorld (remote w) (sent w) (toasts w) (localStorage w) (currentFolder w)
              (folders w) (update (files w)) (loading w), Fulfilled tt).

Definition localStorage_getItem : M (option (list DriveFolder)) :=
  fun w => (w, Fulfilled (localStorage w)).

Definition localStorage_setItem (item : list DriveFolder) : M unit :=
  fun w => (mkWorld (remote w) (sent w) (toasts w) (Some item) (currentFolder w)
              (folders w) (files w) (loading w), Fulfilled tt).

Definition get_currentFolder : M (option CurrentFolder) :=
  fun w => (w, Fulfilled (currentFolder w)).

(** [for (...) await body(x)]: the bodies run in order, the first rejection
    ends the loop. *)
Fixpoint for_each {A} (body : A -> M unit) (l : list A) : M unit :=
  match l with
  | [] => ret tt
  | x :: l' => body x ;;; for_each body l'
  end.

(* ------------------------------------------------------------------ *)
(** *** Recursive delete *)

Definition or_empty {A} (o : option (list A)) : list A :=
  match o with Some l => l | None => [] end.

(** [emptyS3Directory(client, Bucket, Prefix)].  [fuel] bounds the depth of
    the calls; a run that needs more is still [Pending]. *)
Fixpoint emptyS3Directory (fuel : nat) (Bucket Prefix : string) : M unit :=
  match fuel with
  | 0 => fun w => (w, Pending)
  | S fuel' =>
      listedObjects <- send_ListObjectsV2 (mkListInput Bucket Prefix None None) ;;
      (* CommonPrefixes?.length > 0 *)
      for_each (emptyS3Directory fuel' Bucket) (or_empty (out_CommonPrefixes listedObjects)) ;;;
      match out_Contents listedObjects with
      | Some [] => ret tt                       (* Contents?.length === 0 *)
      | None =>                                 (* undefined === 0 is false *)
          throw (TypeError "Cannot read properties of undefined (reading 'length')")
      | Some Contents =>
          send_DeleteObjects Bucket (map obj_Key Contents) ;;;
          if out_IsTruncated listedObjects then emptyS3Directory fuel' Bucket Prefix
          else ret tt
      end
  end.

(* ------------------------------------------------------------------ *)
(** *** The folder index *)

(** [addFolder(name)]; [now] is [new Date().toISOString()]. *)
Definition addFolder (now name : string) : M unit :=
  cf <- get_currentFolder ;;
  match cf with
  | None => throw (TypeError "Cannot read properties of null (reading 'fullPath')")
  | Some cf =>
      path <- (if negb (String.eqb (currentFolder_fullPath cf) EmptyString)
               then fun w => (w, settle (decodeURIComponent data (currentFolder_fullPath cf)))
               else ret EmptyString) ;;
      let path := (path ++ name ++ "/")%string in
      let newFolder :=
        mkDriveFolder name path (currentFolder_fullPath cf) (Some now)
          (data_keys_Bucket data) (data_keys_bucketUrl data) in
      setFolders (option_map (fun folders => folders ++ [newFolder])) ;;;
      localFolders <- localStorage_getItem ;;
      localStorage_setItem (or_empty localFolders ++ [newFolder])
  end.

(** The part of [removeFolder] that prunes the persisted index. *)
Definition prune_index (folder : DriveFolder) (index : list DriveFolder) : list DriveFolder :=
  filter (fun f => negb (includes (folder_fullPath f) (folder_fullPath folder))) index.

Definition removeFolder (fuel : nat) (folder : DriveFolder) : M unit :=
  setFolders (option_map
    (filter (fun f => negb (String.eqb (folder_fullPath f) (folder_fullPath folder))))) ;;;
  localFolders <- localStorage_getItem ;;
  match localFolders with
  | Some folders => localStorage_setItem (prune_index folder folders)
  | None => ret tt
  end ;;;
  emptyS3Directory fuel (folder_bucketName folder) (folder_fullPath folder).

(* ------------------------------------------------------------------ *)
(** *** Object keys *)

(** [/[#\$\[\]\*/]/.test(name)] *)
Definition reserved (c : ascii) : bool :=
  existsb (Ascii.eqb c) ["#"; "$"; "["; "]"; "*"; "/"]%char.

Fixpoint has_reserved (name : string) : bool :=
  match name with
  | EmptyString => false
  | String c s => reserved c || has_reserved s
  end.

(** The [Key] that [addFile] uploads a file under. *)
Definition addFile_Key (cf : CurrentFolder) (name : string) : Error + string :=
  match cf with
  | ROOT_FOLDER => inr name
  | NamedFolder f =>
      match decodeURIComponent data (folder_fullPath f) with
      | inl e => inl e
      | inr path => inr (path ++ name)%string
      end
  end.

(** The checks [addFile] makes before it uploads: the result is the key, or
    the toast shown instead. *)
Definition addFile_check (cf : CurrentFolder) (files : option (list DriveFile))
    (name : string) : string + (Error + string) :=
  if has_reserved name then
    inl "File name cannot contain special characters (#$[]*/)."
  else if (0 <? length (filter (fun f => String.eqb (file_name f) name)
                          (or_empty files)))%nat then
    inl "File with same name already exists."
  else inr (addFile_Key cf name).

(** [Key.split("/").pop()], the name a listed object is shown under. *)
Definition name_of_Key (k : string) : string := pop (split "/" k).

(* ------------------------------------------------------------------ *)
(** *** Navigation and listing *)

(** The effect on [fullPath, user] that sets the current folder. *)
Definition navigate (fullPath : option string) : M unit :=
  match user_email with
  | None | Some EmptyString => ret tt
  | Some _ =>
      setFiles (fun _ => None) ;;;
      setFolders (fun _ => None) ;;;
      match fullPath with
      | None | Some EmptyString => setCurrentFolder ROOT_FOLDER
      | Some fullPath =>
          setCurrentFolder (NamedFolder
            (mkDriveFolder (pop (split "/" fullPath)) (fullPath ++ "/")
               (shift (split "/" fullPath) ++ "/") None
               (data_keys_Bucket data) (data_keys_bucketUrl data)))
      end
  end.

Definition driveFile_of (cf : CurrentFolder) (results : ListObjectsV2Output)
    (result : S3Object) (url : string) : DriveFile :=
  mkDriveFile (obj_Key result) (name_of_Key (obj_Key result)) (currentFolder_fullPath cf)
    (obj_LastModified result) (obj_Size result)
    (match mime_lookup data (obj_Key result) with Some t => t | None => EmptyString end)
    (out_Name results) (data_keys_bucketUrl data) url.

(** [Contents.forEach(async (result) => ...)]: each object becomes a file of
    the session once its URL is signed; an object whose signing rejects is
    never added.  The callbacks are not awaited: in the code each adds its
    file when its own URL is signed, which may be after the effect has
    settled and in any order.  Here they are run at once and in listing
    order, so of what is proved about [files] only what depends neither on
    the order nor on the moment carries over to the code. *)
Fixpoint add_files (cf : CurrentFolder) (results : ListObjectsV2Output)
    (Contents : list S3Object) : M unit :=
  match Contents with
  | [] => ret tt
  | result :: rest =>
      match getSignedUrl data (out_Name results) (obj_Key result) with
      | Some url =>
          let driveFile := driveFile_of cf results result url in
          setFiles (fun files =>
            match files with Some fs => Some (fs ++ [driveFile]) | None => Some [driveFile] end)
      | None => ret tt
      end ;;;
      add_files cf results rest
  end.

Definition driveFolder_of (cf : CurrentFolder) (results : ListObjectsV2Output)
    (Prefix : string) : DriveFolder :=
  mkDriveFolder (pop (split "/" (slice_0_m1 Prefix))) Prefix (currentFolder_fullPath cf) None
    (out_Name results) (data_keys_bucketUrl data).

(** The local folders shown in the current folder: children of it that the
    remote page does not list. *)
Definition local_children (cf : CurrentFolder) (results : ListObjectsV2Output)
    (localFoldersArray : list DriveFolder) : list DriveFolder :=
  filter (fun folder =>
            String.eqb (folder_parent folder) (currentFolder_fullPath cf) &&
            negb (existsb (fun prefix => String.eqb prefix (folder_fullPath folder))
                    (or_empty (out_CommonPrefixes results))))
    localFoldersArray.

(** [while (results.IsTruncated) { ... }]; [fuel] bounds the number of
    further pages requested. *)
Fixpoint list_more (fuel : nat) (cf : CurrentFolder) (results : ListObjectsV2Output) : M unit :=
  if out_IsTruncated results then
    match fuel with
    | 0 => fun w => (w, Pending)
    | S fuel' =>
        results <- send_ListObjectsV2
          (mkListInput (data_keys_Bucket data) (currentFolder_fullPath cf) (Some "/")
             (out_ContinuationToken results)) ;;
        match out_Contents results with
        | Some Contents => add_files cf results Contents
        | None => throw (TypeError "Cannot read properties of undefined (reading 'forEach')")
        end ;;;
        list_more fuel' cf results
    end
  else ret tt.

(** The effect on [currentFolder, user] that lists the folder.  [files] is
    the value the effect's closure captured. *)
Definition list_folder (fuel : nat) (files : option (list DriveFile)) : M unit :=
  cf <- get_currentFolder ;;
  match user_email, cf with
  | None, _ | Some EmptyString, _ | _, None => ret tt
  | Some _, Some cf =>
      setLoading true ;;;
      try_catch
        (match files with
         | Some _ => ret tt
         | None =>
             results <- send_ListObjectsV2
               (mkListInput (data_keys_Bucket data) (currentFolder_fullPath cf)
                  (Some "/") None) ;;
             match out_Contents results with
             | Some Contents => add_files cf results Contents
             | None => ret tt
             end ;;;
             localFolders <- localStorage_getItem ;;
             setFolders (fun _ => Some (local_children cf results (or_empty localFolders))) ;;;
             for_each (fun Prefix =>
                         setFolders (option_map (fun folders =>
                           folders ++ [driveFolder_of cf results Prefix])))
               (or_empty (out_CommonPrefixes results)) ;;;
             list_more fuel cf results
         end)
        (fun err => ret tt) ;;;
      setLoading false
  end.

End Provider.

Arguments mkWorld {client}.
Arguments remote {client}.
Arguments sent {client}.
Arguments toasts {client}.
Arguments localStorage {client}.
Arguments currentFolder {client}.
Arguments folders {client}.
Arguments files {client}.
Arguments loading {client}.

(* ================================================================== *)
(** ** Stores to run the provider against *)

Module Fixtures.

Definition option_string_eqb (a b : option string) : bool :=
  match a, b with
  | None, None => true
  | Some x, Some y => String.eqb x y
  | _, _ => false
  end.

(** A read-only store that answers a listing request by the page its table
    has for the request's continuation token. *)
Definition pagedClient (pages : list (option string * ListObjectsV2Output)) : S3Client :=
  mkS3Client unit
    (fun r input =>
       (r, match find (fun page => option_string_eqb (fst page) (in_ContinuationToken input))
                  pages with
           | Some page => inr (snd page)
           | None => inl (ServiceException "InvalidArgument")
           end))
    (fun r _ _ => (r, None))
    (fun r _ _ => (r, inr []))
    (fun r _ _ _ => (r, None)).

(** The folder [docs/] in two pages, as ListObjectsV2 serves them: a page
    echoes the token it was requested with in [ContinuationToken] and names
    the next page in [NextContinuationToken]. *)
Definition docs_pages : list (option string * ListObjectsV2Output) :=
  [(None,
    mkListOutput (Some [mkS3Object "docs/a.txt" "2023-01-01T00:00:00.000Z" "1"])
      (Some ["docs/reports/"%string]) true "bucket" None (Some "t1"%string));
   (Some "t1"%string,
    mkListOutput (Some [mkS3Object "docs/b.txt" "2023-01-02T00:00:00.000Z" "2"])
      (Some ["docs/zips/"%string]) false "bucket" (Some "t1"%string) None)].

(** The same two pages from a store that would put the token of the next
    page in [ContinuationToken]. *)
Definition docs_pages_forwarding : list (option string * ListObjectsV2Output) :=
  [(None,
    mkListOutput (Some [mkS3Object "docs/a.txt" "2023-01-01T00:00:00.000Z" "1"])
      (Some ["docs/reports/"%string]) true "bucket" (Some "t1"%string) (Some "t1"%string));
   (Some "t1"%string,
    mkListOutput (Some [mkS3Object "docs/b.txt" "2023-01-02T00:00:00.000Z" "2"])
      (Some ["docs/zips/"%string]) false "bucket" None None)].

(** An in-memory bucket: the objects in key order, each with its tag set. *)
Definition Bucket := list (string * list S3Tag).

Fixpoint after (token : string) (objs : Bucket) : Bucket :=
  match objs with
  | [] => []
  | (k, _) :: rest => if String.eqb k token then rest else after token rest
  end.

Definition tags_in (objs : Bucket) (fileKey : string) : list S3Tag :=
  match find (fun o => String.eqb (fst o) fileKey) objs with
  | Some o => snd o
  | None => []
  end.

Fixpoint set_tags (fileKey : string) (ts : list S3Tag) (objs : Bucket) : Bucket :=
  match objs with
  | [] => []
  | (k, old) :: rest =>
      if String.eqb k fileKey then (k, ts) :: rest else (k, old) :: set_tags fileKey ts rest
  end.

(** The memory store as a client.  Listings are flat (a request with a
    delimiter is refused), at most [maxKeys] keys a page; a page without keys
    has [Contents] undefined, or the empty array when [emptyArray] is set.
    Tagging an object that does not exist is refused. *)
Definition memoryClient (maxKeys : nat) (emptyArray : bool) : S3Client :=
  mkS3Client Bucket
    (fun objs input =>
       (objs,
        match in_Delimiter input with
        | Some _ => inl (ServiceException "NotImplemented")
        | None =>
            let start := match in_ContinuationToken input with
                         | Some t => after t objs
                         | None => objs
                         end in
            let matching := filter (fun o => String.prefix (in_Prefix input) (fst o)) start in
            let page := firstn maxKeys matching in
            let truncated := (maxKeys <? length matching)%nat in
            inr (mkListOutput
                   (match page with
                    | [] => if emptyArray then Some [] else None
                    | _ => Some (map (fun o => mkS3Object (fst o) "" "") page)
                    end)
                   None truncated (in_Bucket input) (in_ContinuationToken input)
                   (if truncated then Some (fst (last page (""%string, []))) else None))
        end))
    (fun objs _ Objects =>
       (filter (fun o => negb (existsb (String.eqb (fst o)) Objects)) objs, None))
    (fun objs _ fileKey =>
       (objs,
        match find (fun o => String.eqb (fst o) fileKey) objs with
        | Some o => inr (snd o)
        | None => inl (ServiceException "NoSuchKey")
        end))
    (fun objs _ fileKey ts =>
       match find (fun o => String.eqb (fst o) fileKey) objs with
       | Some _ => (set_tags fileKey ts objs, None)
       | None => (objs, Some (ServiceException "NoSuchKey"))
       end).

Definition drive : Drive :=
  mkDrive "bucket" "https://bucket.s3.us-east-1.amazonaws.com" true
    (fun s => inr s) (fun _ => None) (fun _ k => Some ("https://signed/" ++ k)%string).

Definition drive_without_tags : Drive :=
  mkDrive "bucket" "https://bucket.s3.eu-west-1.backblazeb2.com" false
    (fun s => inr s) (fun _ => None) (fun _ k => Some ("https://signed/" ++ k)%string).

Definition world {client : S3Client} (r : Remote client) : World client :=
  mkWorld r [] [] None None None None false.

Definition a_file (k : string) : DriveFile :=
  mkDriveFile k (name_of_Key k) "" "" "" "" "bucket" "" "".

(** A small bucket; [p/b] carries the tag [{a:1}]. *)
Definition shelf : Bucket :=
  [("p/a"%string, []); ("p/b"%string, [mkS3Tag "a" "1"]); ("p/c"%string, []);
   ("q/d"%string, [])].

Definition memory : S3Client := memoryClient 2 true.

Definition memory_tags (objs : Remote memory) (B K : string) : list S3Tag :=
  tags_in objs K.

Definition a_folder (path parent : string) : DriveFolder :=
  mkDriveFolder (pop (split "/" (slice_0_m1 path))) path parent (Some "2023-01-01T00:00:00.000Z")
    "bucket" "".

(** A persisted index: beside [docs/] itself, a folder under it, a folder
    elsewhere whose path contains [docs/] and an unrelated one. *)
Definition an_index : list DriveFolder :=
  [a_folder "docs/" ""; a_folder "docs/reports/" "docs/"; a_folder "my-docs/x/" "my-docs/";
   a_folder "music/" ""].

(** The current folder after navigating to [docs]. *)
Definition docs : CurrentFolder :=
  NamedFolder (mkDriveFolder "docs" "docs/" "docs/" None "bucket"
                 "https://bucket.s3.us-east-1.amazonaws.com").

(** The first page of [docs_pages] and what it contributes to a visit of
    [docs]: the listing request, the file and the folder. *)
Definition docs_page1 : ListObjectsV2Output :=
  mkListOutput (Some [mkS3Object "docs/a.txt" "2023-01-01T00:00:00.000Z" "1"])
    (Some ["docs/reports/"%string]) true "bucket" None (Some "t1"%string).

Definition docs_request : Command :=
  ListObjectsV2Command (mkListInput "bucket" "docs/" (Some "/"%string) None).

Definition docs_a : DriveFile :=
  mkDriveFile "docs/a.txt" "a.txt" "docs/" "2023-01-01T00:00:00.000Z" "1" "" "bucket"
    "https://bucket.s3.us-east-1.amazonaws.com" "https://signed/docs/a.txt".

Definition docs_b : DriveFile :=
  mkDriveFile "docs/b.txt" "b.txt" "docs/" "2023-01-02T00:00:00.000Z" "2" "" "bucket"
    "https://bucket.s3.us-east-1.amazonaws.com" "https://signed/docs/b.txt".

Definition world_with_index {client : S3Client} (r : Remote client)
    (index : list DriveFolder) (cf : CurrentFolder) : World client :=
  mkWorld r [] [] (Some index) (Some cf) None None false.

End Fixtures.

(* ================================================================== *)
(** ** What is expected of a store's tagging operations *)

(** [tags r B K] is the tag set the store [r] holds for object [K] of bucket
    [B].  A store keeps tags faithfully when a read returns that set and
    changes nothing, a successful write replaces it, and a failed request
    leaves it as it was. *)
Record KeepsTags (client : S3Client)
    (tags : Remote client -> string -> string -> list S3Tag) : Prop := {
  get_returns : forall r B K r' ts,
    getObjectTagging client r B K = (r', inr ts) -> ts = tags r B K /\ tags r' B K = tags r B K;
  get_failed : forall r B K r' e,
    getObjectTagging client r B K = (r', inl e) -> tags r' B K = tags r B K;
  put_replaces : forall r B K ts r',
    putObjectTagging client r B K ts = (r', None) -> tags r' B K = ts;
  put_failed : forall r B K ts r' e,
    putObjectTagging client r B K ts = (r', Some e) -> tags r' B K = tags r B K
}.

(* ================================================================== *)
(** ** Notions the statements are phrased with *)

Section Notions.

Variable client : S3Client.
Variable data : Drive.

Definition without_key (key : string) (ts : list S3Tag) : list S3Tag :=
  filter (fun tag => negb (String.eqb (Key tag) key)) ts.

(** The world after a tagging request was sent and answered by [r]. *)
Definition answered (r : Remote client) (c : Command) (w : World client) : World client :=
  set_remote client r (log client c w).

Definition toasted (msg : string) (w : World client) : World client :=
  fst (toast_error client msg w).

(** The write-back shared by [addTags] and [removeTags]. *)
Definition written_back (K : string) (ts : list S3Tag) (w : World client)
  : World client * Promise bool :=
  match putObjectTagging client (remote w) (data_keys_Bucket data) K ts with
  | (r, None) =>
      (answered r (PutObjectTaggingCommand (data_keys_Bucket data) K ts) w, Fulfilled true)
  | (r, Some err) =>
      (toasted ("Error: " ++ message err)
         (answered r (PutObjectTaggingCommand (data_keys_Bucket data) K ts) w),
       Fulfilled false)
  end.

(** A computation leaves the part [f] of the world as it found it. *)
Definition preserves {X A : Type} (f : World client -> X) (m : M client A) : Prop :=
  forall w, f (fst (m w)) = f w.

(** Parts of the world that sending a command does not touch, and parts that
    adding a file does not touch. *)
Definition apart_from_store {X : Type} (f : World client -> X) : Prop :=
  forall r c w, f (set_remote client r (log client c w)) = f w.

Definition apart_from_files {X : Type} (f : World client -> X) : Prop :=
  forall update w, f (fst (setFiles client update w)) = f w.

End Notions.

(* ================================================================== *)
(** ** The recursive delete, as a description of its completed runs *)

Section DeleteRuns.

Variable client : S3Client.
Variable Bucket : string.

(** [Emptied Prefix w w']: from the world [w], emptying [Prefix] runs to
    completion and leaves [w'].  The prefix is listed flat and from the start
    (no delimiter, no continuation token); each folder prefix the page names
    is emptied first, in order; then the page itself is dealt with
    ([DeletedPage]): an empty array of contents ends the run with nothing
    deleted, otherwise all keys of the page go in one DeleteObjects request
    and, when the page was truncated, the prefix is emptied again. *)
Inductive Emptied : string -> World client -> World client -> Prop :=
| Emptied_page (Prefix : string) (w w1 w2 w3 : World client) (page : ListObjectsV2Output) :
    send_ListObjectsV2 client (mkListInput Bucket Prefix None None) w = (w1, Fulfilled page) ->
    EmptiedEach (or_empty (out_CommonPrefixes page)) w1 w2 ->
    DeletedPage Prefix page w2 w3 ->
    Emptied Prefix w w3
with EmptiedEach : list string -> World client -> World client -> Prop :=
| EmptiedEach_nil (w : World client) : EmptiedEach [] w w
| EmptiedEach_cons (P : string) (Ps : list string) (w w1 w2 : World client) :
    Emptied P w w1 -> EmptiedEach Ps w1 w2 -> EmptiedEach (P :: Ps) w w2
with DeletedPage : string -> ListObjectsV2Output -> World client -> World client -> Prop :=
| Deleted_nothing (Prefix : string) (page : ListObjectsV2Output) (w : World client) :
    out_Contents page = Some [] ->
    DeletedPage Prefix page w w
| Deleted_last (Prefix : string) (page : ListObjectsV2Output) (o : S3Object)
    (os : list S3Object) (w w1 : World client) :
    out_Contents page = Some (o :: os) ->
    send_DeleteObjects client Bucket (map obj_Key (o :: os)) w = (w1, Fulfilled tt) ->
    out_IsTruncated page = false ->
    DeletedPage Prefix page w w1
| Deleted_more (Prefix : string) (page : ListObjectsV2Output) (o : S3Object)
    (os : list S3Object) (w w1 w2 : World client) :
    out_Contents page = Some (o :: os) ->
    send_DeleteObjects client Bucket (map obj_Key (o :: os)) w = (w1, Fulfilled tt) ->
    out_IsTruncated page = true ->
    Emptied Prefix w1 w2 ->
    DeletedPage Prefix page w w2.

Scheme Emptied_ind3 := Minimality for Emptied Sort Prop
  with EmptiedEach_ind3 := Minimality for EmptiedEach Sort Prop
  with DeletedPage_ind3 := Minimality for DeletedPage Sort Prop.

(** What [emptyS3Directory] does with a page once the folder prefixes are
    done; [again] is the call on the same prefix. *)
Definition delete_page (again : M client unit) (listedObjects : ListObjectsV2Output)
  : M client unit :=
  match out_Contents listedObjects with
  | Some [] => ret client tt
  | None => throw client (TypeError "Cannot read properties of undefined (reading 'length')")
  | Some Contents =>
      bind client (send_DeleteObjects client Bucket (map obj_Key Contents))
        (fun _ => if out_IsTruncated listedObjects then again else ret client tt)
  end.

(** One computation settles wherever the other does, and the same way. *)
Definition settles_like {A} (m m' : M client A) : Prop :=
  forall w w' res, m w = (w', res) -> res <> Pending -> m' w = (w', res).

End DeleteRuns.

(* ================================================================== *)
(** ** The rest of the provider: uploads in progress and file removal *)

Section Uploads.

Variable client : S3Client.
Variable data : Drive.

(** The progress of an upload is a JavaScript number, computed by the event
    source; [zero] is the [0] a new entry starts with. *)
Variable number : Type.
Variable zero : number.

(** An entry of [uploadingFiles], without its task handle. *)
Record UploadingFile := mkUploadingFile {
  up_id : string;
  up_name : string;
  up_key : string;
  up_state : string;
  up_progress : number;
  up_error : bool
}.

(** The updaters the handlers of [addFile] pass to [setUploadingFiles]; [id]
    is the upload's [nanoid()]. *)
Definition on_initiated (id name fileKey : string) (prev : list UploadingFile)
  : list UploadingFile :=
  prev ++ [mkUploadingFile id name fileKey "running" zero false].

Definition on_progress (id : string) (percent : number) (prev : list UploadingFile)
  : list UploadingFile :=
  map (fun uploadFile =>
         if String.eqb (up_id uploadFile) id
         then mkUploadingFile (up_id uploadFile) (up_name uploadFile) (up_key uploadFile)
                "running" percent (up_error uploadFile)
         else uploadFile)
    prev.

Definition on_paused (id : string) (prev : list UploadingFile) : list UploadingFile :=
  map (fun uploadFile =>
         if String.eqb (up_id uploadFile) id
         then mkUploadingFile (up_id uploadFile) (up_name uploadFile) (up_key uploadFile)
                "paused" (up_progress uploadFile) (up_error uploadFile)
         else uploadFile)
    prev.

Definition on_resumed (id : string) (prev : list UploadingFile) : list UploadingFile :=
  map (fun uploadFile =>
         if String.eqb (up_id uploadFile) id
         then mkUploadingFile (up_id uploadFile) (up_name uploadFile) (up_key uploadFile)
                "running" (up_progress uploadFile) (up_error uploadFile)
         else uploadFile)
    prev.

(** The state updater of the [error] handler (its toast apart). *)
Definition on_error (id : string) (prev : list UploadingFile) : list UploadingFile :=
  map (fun uploadFile =>
         if String.eqb (up_id uploadFile) id
         then mkUploadingFile (up_id uploadFile) (up_name uploadFile) (up_key uploadFile)
                (up_state uploadFile) (up_progress uploadFile) true
         else uploadFile)
    prev.

(** The file record the [completed] handler builds; [region] is
    [data.keys.region], [size] is [file.size.toString()] and [now] is
    [new Date().toISOString()]. *)
Definition uploaded_file (region now : string) (cf : CurrentFolder)
    (name size fileKey url : string) : DriveFile :=
  mkDriveFile fileKey name (currentFolder_fullPath cf) now size
    (match mime_lookup data name with
     | Some t => t
     | None => "application/octet-stream"%string
     end)
    (data_keys_Bucket data)
    ("https://" ++ data_keys_Bucket data ++ ".s3." ++ region ++ ".amazonaws.com")%string
    url.

(** The [completed] handler, on the pair of [uploadingFiles] and the world.
    The emitter drops the promise the handler returns: when signing the URL
    rejects, what remains is the entry's removal. *)
Definition on_completed (region now : string) (cf : CurrentFolder)
    (id name size fileKey : string) (st : list UploadingFile * World client)
  : list UploadingFile * World client :=
  let uploads := filter (fun uploadFile => negb (String.eqb (up_id uploadFile) id)) (fst st) in
  match getSignedUrl data (data_keys_Bucket data) fileKey with
  | Some url =>
      let newFile := uploaded_file region now cf name size fileKey url in
      (uploads,
       fst (setFiles client
              (fun files =>
                 match files with Some fs => Some (fs ++ [newFile]) | None => Some [newFile] end)
              (snd st)))
  | None => (uploads, snd st)
  end.

(** The events of an upload that update its entry in place. *)
Inductive UploadEvent :=
| Progress (percent : number)
| Paused
| Resumed
| Failed.

Definition on_event (id : string) (ev : UploadEvent) (prev : list UploadingFile)
  : list UploadingFile :=
  match ev with
  | Progress percent => on_progress id percent prev
  | Paused => on_paused id prev
  | Resumed => on_resumed id prev
  | Failed => on_error id prev
  end.

(** A history of such events, each with the id of its upload, oldest first. *)
Fixpoint on_events (evs : list (string * UploadEvent)) (prev : list UploadingFile)
  : list UploadingFile :=
  match evs with
  | [] => prev
  | (id, ev) :: rest => on_events rest (on_event id ev prev)
  end.

(** [DeleteObjectCommand] through [s3Client.send]. *)
Variable deleteObject : Remote client -> string -> string -> Remote client * option Error.

(** [removeFile(file)].  A DeleteObject request is not entered in [sent];
    the files are taken as loaded (on null the updater would throw). *)
Definition removeFile (file : DriveFile) : M client bool :=
  bind client
    (setFiles client
       (option_map (filter (fun f => negb (String.eqb (file_fullPath f) (file_fullPath file))))))
    (fun _ =>
       bind client
         (fun w =>
            let (r, res) := deleteObject (remote w) (data_keys_Bucket data) (file_fullPath file) in
            (set_remote client r w, settle_unit res))
         (fun _ => ret client true)).

End Uploads.

Arguments mkUploadingFile {number}.
Arguments up_id {number}.
Arguments up_name {number}.
Arguments up_key {number}.
Arguments up_state {number}.
Arguments up_progress {number}.
Arguments up_error {number}.
Arguments Progress {number}.
Arguments Paused {number}.
Arguments Resumed {number}.
Arguments Failed {number}.
Arguments on_initiated {number}.
Arguments on_progress {number}.
Arguments on_paused {number}.
Arguments on_resumed {number}.
Arguments on_error {number}.
Arguments on_event {number}.
Arguments on_events {number}.
Arguments on_completed {client} data {number}.

(* ================================================================== *)
(** ** Further notions *)

(** A string made of white space only. *)
Fixpoint all_whitespace (s : string) : bool :=
  match s with
  | EmptyString => true
  | String c s' => isWhiteSpace c && all_whitespace s'
  end.

(** How [listTags] renders a stored tag. *)
Definition as_Tag (tag : S3Tag) : Tag := mkTag (Key tag) (Value tag).

(** The files [add_files] adds for a page: one for each object whose URL
    could be signed, in listing order. *)
Fixpoint signed_files (data : Drive) (cf : CurrentFolder) (results : ListObjectsV2Output)
    (Contents : list S3Object) : list DriveFile :=
  match Contents with
  | [] => []
  | result :: rest =>
      match getSignedUrl data (out_Name results) (obj_Key result) with
      | Some url => driveFile_of data cf results result url :: signed_files data cf results rest
      | None => signed_files data cf results rest
      end
  end.

(** The files state after some files were added to it. *)
Definition with_files (files : option (list DriveFile)) (added : list DriveFile)
  : option (list DriveFile) :=
  match added with
  | [] => files
  | _ => Some (or_empty files ++ added)
  end.

(** The commands [emptyS3Directory] may send for a bucket. *)
Definition delete_command (Bucket : string) (c : Command) : Prop :=
  match c with
  | ListObjectsV2Command input =>
      in_Bucket input = Bucket /\ in_Delimiter input = None /\ in_ContinuationToken input = None
  | DeleteObjectsCommand B Objects => B = Bucket /\ Objects <> []
  | GetObjectTaggingCommand _ _ => False
  | PutObjectTaggingCommand _ _ _ => False
  end.

(* ================================================================== *)
(** ** More stores and worlds to run the provider against *)

Module MoreFixtures.

Import Fixtures.

(** The folder [docs/] in a single page. *)
Definition docs_single : list (option string * ListObjectsV2Output) :=
  [(None,
    mkListOutput
      (Some [mkS3Object "docs/a.txt" "2023-01-01T00:00:00.000Z" "1";
             mkS3Object "docs/b.txt" "2023-01-02T00:00:00.000Z" "2"])
      (Some ["docs/reports/"%string]) false "bucket" None None)].

(** A folder that holds nothing: the page has neither contents nor
    prefixes. *)
Definition nothing_listed : list (option string * ListObjectsV2Output) :=
  [(None, mkListOutput None None false "bucket" None None)].

(** The world right after navigating to [docs], with a persisted index. *)
Definition at_docs {client : S3Client} (r : Remote client) : World client :=
  world_with_index r an_index docs.

End MoreFixtures.

(* ================================================================== *)
(** ** Notions for the further properties *)

Section MoreNotions.

Variable client : S3Client.
Variable data : Drive.

(** A computation that never rejects. *)
Definition never_rejects {A} (m : M client A) : Prop :=
  forall w e, snd (m w) <> Rejected e.

(** The world of a visit when its first page has been dealt with. *)
Definition first_page_world (cf : CurrentFolder) (r : Remote client)
    (results : ListObjectsV2Output) (w : World client) : World client :=
  mkWorld r
    (sent w ++ [ListObjectsV2Command
                  (mkListInput (data_keys_Bucket data) (currentFolder_fullPath cf)
                     (Some "/"%string) None)])
    (toasts w) (localStorage w) (currentFolder w)
    (Some (local_children cf results (or_empty (localStorage w)) ++
           map (driveFolder_of data cf results) (or_empty (out_CommonPrefixes results))))
    (with_files (files w)
       (signed_files data cf results (or_empty (out_Contents results))))
    true.

(** How a visit ends once the loop has run: a rejection is swallowed. *)
Definition visit_end (run : World client * Promise unit) : World client * Promise unit :=
  match snd run with
  | Pending => (fst run, Pending)
  | _ => (fst (setLoading client false (fst run)), Fulfilled tt)
  end.

(** What [addFolder] puts before the new folder's name: nothing in a folder
    whose path is empty, else the decoded path of the current folder. *)
Definition folder_prefix (cf : CurrentFolder) : Error + string :=
  if String.eqb (currentFolder_fullPath cf) EmptyString then inr EmptyString
  else decodeURIComponent data (currentFolder_fullPath cf).

(** The folder [addFolder] creates under the prefix [path]. *)
Definition added_folder (now name : string) (cf : CurrentFolder) (path : string)
  : DriveFolder :=
  mkDriveFolder name (path ++ name ++ "/") (currentFolder_fullPath cf) (Some now)
    (data_keys_Bucket data) (data_keys_bucketUrl data).

(** A computation that only adds commands to those sent, all of them
    satisfying [ok]. *)
Definition sends_only {A} (ok : Command -> Prop) (m : M client A) : Prop :=
  forall w, exists cmds, sent (fst (m w)) = sent w ++ cmds /\ Forall ok cmds.

End MoreNotions.

(* ================================================================== *)
(** ** A store whose reads give out *)

Module FlakyStore.

Import Fixtures.

(** The in-memory bucket behind a connection that answers a given number of
    GetObjectTagging requests and fails every one after them.  Writes go
    through as on the memory store; listings are not served. *)
Definition flakyClient : S3Client :=
  mkS3Client (nat * Bucket)
    (fun r _ => (r, inl (ServiceException "NotImplemented")))
    (fun r _ _ => (r, None))
    (fun r _ fileKey =>
       match fst r with
       | 0 => (r, inl (ServiceException "SlowDown"))
       | S rest =>
           ((rest, snd r),
            match find (fun o => String.eqb (fst o) fileKey) (snd r) with
            | Some o => inr (snd o)
            | None => inl (ServiceException "NoSuchKey")
            end)
       end)
    (fun r _ fileKey ts =>
       match find (fun o => String.eqb (fst o) fileKey) (snd r) with
       | Some _ => ((fst r, set_tags fileKey ts (snd r)), None)
       | None => (r, Some (ServiceException "NoSuchKey"))
       end).

Definition flaky_tags (r : Remote flakyClient) (B K : string) : list S3Tag :=
  tags_in (snd r) K.


End FlakyStore.

(* ================================================================== *)
(** * Properties *)

(** ** Strings *)

Section StringFacts.

Lemma append_nil_r (s : string) : (s ++ "")%string = s.
Proof. induction s as [|c s IH]; simpl; congruence. Qed.

Lemma append_assoc (a b c : string) : ((a ++ b) ++ c)%string = (a ++ (b ++ c))%string.
Proof. induction a as [|x a IH]; simpl; congruence. Qed.

Lemma split_nonempty (sep : ascii) (s : string) : split sep s <> [].
Proof.
  destruct s as [|c s]; simpl; [discriminate|].
  destruct (Ascii.eqb c sep); [discriminate|].
  destruct (split sep s); discriminate.
Qed.

(** Splitting distributes over an occurrence of the separator. *)
Lemma split_app (sep : ascii) (p s : string) :
  split sep (p ++ String sep s) = split sep p ++ split sep s.
Proof.
  induction p as [|c p IH]; simpl.
  - rewrite Ascii.eqb_refl. reflexivity.
  - destruct (Ascii.eqb c sep); rewrite IH; [reflexivity|].
    pose proof (split_nonempty sep p) as Hne.
    destruct (split sep p) as [|h t]; [contradiction|reflexivity].
Qed.

Lemma split_no_sep (sep : ascii) (s : string) :
  contains_char sep s = false -> split sep s = [s].
Proof.
  induction s as [|c s IH]; simpl; intros H; [reflexivity|].
  apply orb_false_iff in H as [Hc Hs].
  rewrite Hc, (IH Hs). reflexivity.
Qed.

Lemma endsWithChar_snoc (c : ascii) (s : string) :
  endsWithChar c s = true -> exists p, s = (p ++ String c "")%string.
Proof.
  induction s as [|d s IH]; simpl; [discriminate|].
  destruct s as [|e s'].
  - intros H. apply Ascii.eqb_eq in H. subst d. exists ""%string. reflexivity.
  - intros H. destruct (IH H) as [p Hp]. exists (String d p). simpl. congruence.
Qed.

Lemma last_app_singleton {A} (l : list A) (x d : A) : last (l ++ [x]) d = x.
Proof. apply last_last. Qed.

(** The leaf of [path ++ name] is [name] when [path] is a folder prefix. *)
Lemma pop_split_prefix (path name : string) :
  path = ""%string \/ endsWithChar "/" path = true ->
  contains_char "/" name = false ->
  pop (split "/" (path ++ name)) = name.
Proof.
  intros [->|Hend] Hname; unfold pop.
  - simpl. rewrite (split_no_sep _ _ Hname). reflexivity.
  - destruct (endsWithChar_snoc _ _ Hend) as [p ->].
    rewrite append_assoc. simpl.
    rewrite split_app, (split_no_sep _ _ Hname).
    apply last_app_singleton.
Qed.

Lemma has_reserved_slash (name : string) :
  has_reserved name = false -> contains_char "/" name = false.
Proof.
  induction name as [|c s IH]; simpl; intros H; [reflexivity|].
  apply orb_false_iff in H as [Hc Hs].
  rewrite (IH Hs), orb_false_r.
  unfold reserved in Hc. simpl in Hc.
  repeat (apply orb_false_iff in Hc as [? Hc]).
  assumption.
Qed.

Lemma prefix_spec (t s : string) :
  String.prefix t s = true <-> exists b, s = (t ++ b)%string.
Proof.
  revert s. induction t as [|c t IH]; intros s; destruct s as [|d s]; simpl.
  - split; [intros _; exists ""%string; reflexivity | reflexivity].
  - split; [intros _; exists (String d s); reflexivity | reflexivity].
  - split; [discriminate | intros [b Hb]; discriminate].
  - destruct (ascii_dec c d) as [->|Hne].
    + rewrite IH. split; intros [b Hb]; exists b; congruence.
    + split; [discriminate | intros [b Hb]; congruence].
Qed.

(** [includes] is substring containment. *)
Lemma includes_spec (s t : string) :
  includes s t = true <-> exists a b, s = (a ++ t ++ b)%string.
Proof.
  induction s as [|c s IH].
  - change (includes "" t) with (String.prefix t "" || false).
    rewrite orb_false_r, prefix_spec. split.
    + intros [b Hb]. exists ""%string, b. exact Hb.
    + intros [a [b Hab]]. destruct a; [exists b; exact Hab | discriminate].
  - change (includes (String c s) t) with (String.prefix t (String c s) || includes s t).
    rewrite orb_true_iff, prefix_spec, IH. split.
    + intros [[b Hb]|[a [b Hab]]].
      * exists ""%string, b. exact Hb.
      * exists (String c a), b. simpl. congruence.
    + intros [a [b Hab]]. destruct a as [|x a]; simpl in Hab.
      * left. exists b. exact Hab.
      * right. exists a, b. congruence.
Qed.

Lemma trimStart_no_leading (s : string) : startsWithWhiteSpace (trimStart s) = false.
Proof.
  induction s as [|c s IH]; simpl; [reflexivity|].
  destruct (isWhiteSpace c) eqn:E; [exact IH | simpl; exact E].
Qed.

Lemma trimEnd_keeps_start (s : string) :
  startsWithWhiteSpace s = false -> startsWithWhiteSpace (trimEnd s) = false.
Proof.
  destruct s as [|c s]; simpl; intros H; [reflexivity|].
  destruct (trimEnd s); [rewrite H; simpl; exact H | simpl; exact H].
Qed.

Lemma trimEnd_no_trailing (s : string) : endsWithWhiteSpace (trimEnd s) = false.
Proof.
  induction s as [|c s IH]; simpl; [reflexivity|].
  destruct (trimEnd s) as [|d t] eqn:E.
  - destruct (isWhiteSpace c) eqn:W; simpl; [reflexivity | exact W].
  - exact IH.
Qed.

Lemma trim_no_surrounding (s : string) :
  startsWithWhiteSpace (trim s) = false /\ endsWithWhiteSpace (trim s) = false.
Proof.
  unfold trim. split.
  - apply trimEnd_keeps_start, trimStart_no_leading.
  - apply trimEnd_no_trailing.
Qed.

Lemma truthy_false (s : string) : truthy s = false <-> s = ""%string.
Proof. destruct s; simpl; split; congruence. Qed.

End StringFacts.

(* ------------------------------------------------------------------ *)
(** ** Tags *)

Section TagFacts.

Variable client : S3Client.
Variable data : Drive.

Local Abbreviation B := (data_keys_Bucket data).
Local Abbreviation fetch file := (GetObjectTaggingCommand B (file_fullPath file)).

Lemma removeTags_run (file : DriveFile) (key : string) (w : World client) :
  removeTags client data file key w =
  match getObjectTagging client (remote w) B (file_fullPath file) with
  | (r, inl e) => (answered client r (fetch file) w, Rejected e)
  | (r, inr ts) =>
      written_back client data (file_fullPath file) (without_key key ts)
        (answered client r (fetch file) w)
  end.
Proof.
  unfold removeTags, written_back, bind, try_catch, send_GetObjectTagging,
    send_PutObjectTagging, answered, toasted.
  destruct (getObjectTagging client (remote w) _ _) as [r [e|ts]]; simpl; [reflexivity|].
  destruct (putObjectTagging client r _ _ _) as [r' [e|]]; reflexivity.
Qed.

Lemma addTags_blank (file : DriveFile) (key value : string) (w : World client) :
  trim key = ""%string ->
  addTags client data file key value w
  = (toasted client "Error: Tag key is blank." w, Fulfilled false).
Proof. intros H. unfold addTags. rewrite H. reflexivity. Qed.

Lemma addTags_run (file : DriveFile) (key value : string) (w : World client) :
  trim key <> ""%string ->
  addTags client data file key value w =
  match getObjectTagging client (remote w) B (file_fullPath file) with
  | (r, inl e) => (answered client r (fetch file) w, Rejected e)
  | (r, inr ts) =>
      written_back client data (file_fullPath file) (ts ++ [mkS3Tag (trim key) value])
        (answered client r (fetch file) w)
  end.
Proof.
  intros H. unfold addTags.
  destruct (truthy (trim key)) eqn:T; [|apply truthy_false in T; contradiction]. simpl.
  unfold written_back, bind, try_catch, send_GetObjectTagging,
    send_PutObjectTagging, answered, toasted.
  destruct (getObjectTagging client (remote w) _ _) as [r [e|ts]]; simpl; [reflexivity|].
  destruct (putObjectTagging client r _ _ _) as [r' [e|]]; reflexivity.
Qed.

Lemma written_back_true (K : string) (ts : list S3Tag) (w w' : World client) :
  written_back client data K ts w = (w', Fulfilled true) <->
  exists r, putObjectTagging client (remote w) B K ts = (r, None) /\
            w' = answered client r (PutObjectTaggingCommand B K ts) w.
Proof.
  unfold written_back.
  destruct (putObjectTagging client (remote w) B K ts) as [r [e|]]; split.
  - intros H; inversion H.
  - intros [r' [H _]]; inversion H.
  - intros H; inversion H. exists r. split; reflexivity.
  - intros [r' [H ->]]; inversion H. reflexivity.
Qed.

Lemma without_key_idem (key : string) (ts : list S3Tag) :
  without_key key (without_key key ts) = without_key key ts.
Proof.
  unfold without_key. induction ts as [|t ts IH]; simpl; [reflexivity|].
  destruct (negb (Key t =? key)%string) eqn:E; simpl; [rewrite E|]; congruence.
Qed.

Lemma without_key_absent (key : string) (ts : list S3Tag) :
  (forall t, In t ts -> Key t <> key) -> without_key key ts = ts.
Proof.
  unfold without_key. induction ts as [|t ts IH]; simpl; intros H; [reflexivity|].
  destruct (String.eqb_spec (Key t) key) as [E|E]; simpl.
  - exfalso. apply (H t); auto.
  - f_equal. apply IH. intros t' Ht'. apply H. auto.
Qed.

Section Kept.

Variable tags : Remote client -> string -> string -> list S3Tag.
Hypothesis kept : KeepsTags client tags.

(** What a write-back leaves in the store, whether it succeeds or not. *)
Lemma written_back_tags (K : string) (ts : list S3Tag) (w w' : World client) (b : bool) :
  written_back client data K ts w = (w', Fulfilled b) ->
  tags (remote w') B K = if b then ts else tags (remote w) B K.
Proof.
  unfold written_back.
  destruct (putObjectTagging client (remote w) B K ts) as [r [e|]] eqn:P;
    intros H; inversion H; subst; simpl.
  - eapply put_failed; eauto.
  - eapply put_replaces; eauto.
Qed.

Lemma written_back_settles (K : string) (ts : list S3Tag) (w : World client) :
  exists w' b, written_back client data K ts w = (w', Fulfilled b).
Proof.
  unfold written_back.
  destruct (putObjectTagging client (remote w) B K ts) as [r [e|]]; eauto.
Qed.

Lemma removeTags_true_tags (file : DriveFile) (key : string) (w w' : World client) :
  removeTags client data file key w = (w', Fulfilled true) ->
  tags (remote w') B (file_fullPath file)
  = without_key key (tags (remote w) B (file_fullPath file)).
Proof.
  rewrite removeTags_run.
  destruct (getObjectTagging client (remote w) _ _) as [r [e|ts]] eqn:G; [discriminate|].
  intros H. apply written_back_tags in H. rewrite H.
  destruct (get_returns _ _ kept _ _ _ _ _ G) as [-> _]. reflexivity.
Qed.

Lemma removeTags_tags_cases (file : DriveFile) (key : string) (w : World client) :
  let w' := fst (removeTags client data file key w) in
  tags (remote w') B (file_fullPath file) = tags (remote w) B (file_fullPath file) \/
  tags (remote w') B (file_fullPath file)
  = without_key key (tags (remote w) B (file_fullPath file)).
Proof.
  rewrite removeTags_run.
  destruct (getObjectTagging client (remote w) _ _) as [r [e|ts]] eqn:G; simpl.
  - left. eapply get_failed; eauto.
  - destruct (get_returns _ _ kept _ _ _ _ _ G) as [-> Hr].
    destruct (written_back_settles (file_fullPath file)
                (without_key key (tags (remote w) B (file_fullPath file)))
                (answered client r (fetch file) w))
      as [w' [b Hw]].
    rewrite Hw. simpl. apply written_back_tags in Hw. rewrite Hw.
    destruct b; [right; reflexivity | left; exact Hr].
Qed.

Lemma addTags_true_tags (file : DriveFile) (key value : string) (w w' : World client) :
  addTags client data file key value w = (w', Fulfilled true) ->
  tags (remote w') B (file_fullPath file)
  = tags (remote w) B (file_fullPath file) ++ [mkS3Tag (trim key) value].
Proof.
  destruct (string_dec (trim key) "") as [E|E].
  - rewrite (addTags_blank _ _ _ _ E). discriminate.
  - rewrite (addTags_run _ _ _ _ E).
    destruct (getObjectTagging client (remote w) _ _) as [r [e|ts]] eqn:G; [discriminate|].
    intros H. apply written_back_tags in H. rewrite H.
    destruct (get_returns _ _ kept _ _ _ _ _ G) as [-> _]. reflexivity.
Qed.

End Kept.

End TagFacts.

Lemma editTags_run (client : S3Client) (data : Drive) (file : DriveFile)
    (prevTag newTag : Tag) (w : World client) :
  editTags client data file prevTag newTag w =
  match removeTags client data file (key prevTag) w with
  | (w1, Fulfilled true) =>
      match addTags client data file (key newTag) (value newTag) w1 with
      | (w2, Fulfilled true) => (w2, Fulfilled true)
      | (w2, Fulfilled false) =>
          match addTags client data file (key prevTag) (value prevTag) w2 with
          | (w3, Fulfilled _) => (toasted client "Error: Tag not edited." w3, Fulfilled false)
          | (w3, Rejected e) => (w3, Rejected e)
          | (w3, Pending) => (w3, Pending)
          end
      | (w2, Rejected e) => (w2, Rejected e)
      | (w2, Pending) => (w2, Pending)
      end
  | (w1, Fulfilled false) => (w1, Fulfilled false)
  | (w1, Rejected e) => (w1, Rejected e)
  | (w1, Pending) => (w1, Pending)
  end.
Proof.
  unfold editTags, bind.
  destruct (removeTags client data file (key prevTag) w) as [w1 [[|]|e|]]; simpl; try reflexivity.
  destruct (addTags client data file (key newTag) (value newTag) w1) as [w2 [[|]|e|]];
    simpl; reflexivity.
Qed.

(** C5.  [addTags] with a key that is blank after trimming returns [false]
    at once: no command is sent and the store is untouched.  With any other
    key it fetches the tag set, appends the tag (its key trimmed) whether or
    not the key is already there, writes the whole set back, and returns
    [true] exactly when that write succeeds; when the fetch fails nothing is
    written and [addTags] does not return [true]. *)
Theorem addTags_validates_then_writes_back :
  forall (client : S3Client) (data : Drive) (file : DriveFile) (key value : string)
         (w : World client),
    let B := data_keys_Bucket data in
    let K := file_fullPath file in
    let w' := fst (addTags client data file key value w) in
    let result := snd (addTags client data file key value w) in
    (trim key = ""%string ->
       result = Fulfilled false /\ sent w' = sent w /\ remote w' = remote w) /\
    (trim key <> ""%string ->
       (forall r e,
          getObjectTagging client (remote w) B K = (r, inl e) ->
          result = Rejected e /\ sent w' = sent w ++ [GetObjectTaggingCommand B K]) /\
       (forall r ts r' res,
          getObjectTagging client (remote w) B K = (r, inr ts) ->
          putObjectTagging client r B K (ts ++ [mkS3Tag (trim key) value]) = (r', res) ->
          sent w' = sent w ++ [GetObjectTaggingCommand B K;
                               PutObjectTaggingCommand B K (ts ++ [mkS3Tag (trim key) value])] /\
          remote w' = r' /\
          result = Fulfilled (match res with None => true | Some _ => false end))).
Proof.
  intros client data file key value w B K w' result. split.
  - intros Hblank. subst w' result. rewrite (addTags_blank _ _ _ _ _ _ Hblank).
    simpl. auto.
  - intros Hkey. subst w' result. rewrite (addTags_run _ _ _ _ _ _ Hkey). fold B K. split.
    + intros r e G. rewrite G. simpl. auto.
    + intros r ts r' res G P. rewrite G. unfold written_back. simpl. fold B. rewrite P.
      destruct res as [err|]; simpl; rewrite <- app_assoc; auto.
Qed.

(** C10.  With a key that is not blank after trimming, the tag [addTags]
    appends to the fetched set and writes back is [{Key: key.trim(), Value:
    value}]; the stored key has no white space at either end. *)
Theorem addTags_stores_trimmed_key :
  forall (client : S3Client) (data : Drive) (file : DriveFile) (key value : string)
         (w : World client) (r : Remote client) (ts : list S3Tag),
    let B := data_keys_Bucket data in
    let K := file_fullPath file in
    trim key <> ""%string ->
    getObjectTagging client (remote w) B K = (r, inr ts) ->
    let stored := mkS3Tag (trim key) value in
    let w' := fst (addTags client data file key value w) in
    sent w' = sent w ++ [GetObjectTaggingCommand B K;
                         PutObjectTaggingCommand B K (ts ++ [stored])] /\
    startsWithWhiteSpace (Key stored) = false /\
    endsWithWhiteSpace (Key stored) = false /\
    (forall tags, KeepsTags client tags ->
       snd (addTags client data file key value w) = Fulfilled true ->
       tags (remote w') B K = tags (remote w) B K ++ [stored]).
Proof.
  intros client data file key value w r ts B K Hkey G stored w'.
  repeat split.
  - subst w' stored B K. rewrite (addTags_run _ _ _ _ _ _ Hkey), G.
    unfold written_back. simpl.
    destruct (putObjectTagging client r _ _ _) as [r' [err|]];
      simpl; rewrite <- app_assoc; reflexivity.
  - apply trim_no_surrounding.
  - apply trim_no_surrounding.
  - intros tags kept Hok. subst w'.
    destruct (addTags client data file key value w) as [w1 res1] eqn:A.
    simpl in *. subst res1. eapply addTags_true_tags; eauto.
Qed.

(** C7.  After a [removeTags] that succeeded, the store holds the fetched
    set without the entries of that key; a second [removeTags] with the same
    key leaves the same tag set.  The call sends the fetch and then the write
    of the filtered set, which is the fetched set itself when the key was not
    present. *)
Theorem removeTags_twice_same_as_once :
  forall (client : S3Client) (data : Drive)
         (tags : Remote client -> string -> string -> list S3Tag),
    KeepsTags client tags ->
    forall (file : DriveFile) (key : string) (w w1 : World client),
      let B := data_keys_Bucket data in
      let K := file_fullPath file in
      removeTags client data file key w = (w1, Fulfilled true) ->
      let w2 := fst (removeTags client data file key w1) in
      tags (remote w1) B K
      = filter (fun tag => negb (String.eqb (Key tag) key)) (tags (remote w) B K) /\
      tags (remote w2) B K = tags (remote w1) B K /\
      sent w1 = sent w ++ [GetObjectTaggingCommand B K;
                           PutObjectTaggingCommand B K
                             (filter (fun tag => negb (String.eqb (Key tag) key))
                                (tags (remote w) B K))] /\
      ((forall t, In t (tags (remote w) B K) -> Key t <> key) ->
       sent w1 = sent w ++ [GetObjectTaggingCommand B K;
                            PutObjectTaggingCommand B K (tags (remote w) B K)]).
Proof.
  intros client data tags kept file key w w1 B K Hrun w2.
  pose proof (removeTags_true_tags client data tags kept file key w w1 Hrun) as H1.
  fold B K in H1. unfold without_key in H1.
  assert (Hsent : sent w1 = sent w ++ [GetObjectTaggingCommand B K;
            PutObjectTaggingCommand B K (without_key key (tags (remote w) B K))]).
  { rewrite removeTags_run in Hrun. fold B K in Hrun.
    destruct (getObjectTagging client (remote w) B K) as [r [e|ts]] eqn:G; [discriminate|].
    destruct (get_returns _ _ kept _ _ _ _ _ G) as [-> _].
    apply written_back_true in Hrun as [r' [_ ->]]. simpl.
    rewrite <- app_assoc. reflexivity. }
  repeat split.
  - exact H1.
  - destruct (removeTags_tags_cases client data tags kept file key w1) as [H|H];
      fold B K in H; subst w2; [exact H|].
    rewrite H, H1. apply without_key_idem.
  - exact Hsent.
  - intros Habsent. rewrite Hsent, (without_key_absent _ _ Habsent). reflexivity.
Qed.


(** C9 (as amended).  [listTags] fetches the file's tag set and returns it
    as an array of [{key, value}] pairs.  When tagging is not enabled for the
    drive it returns nothing ([undefined], not an empty array), sends no
    command and shows no error. *)
Theorem listTags_returns_pairs_or_nothing :
  forall (client : S3Client) (data : Drive) (file : DriveFile) (w : World client),
    (enableTags data = false ->
       listTags client data file w = (w, Fulfilled None)) /\
    (enableTags data = true ->
       forall r ts,
         getObjectTagging client (remote w) (data_keys_Bucket data) (file_fullPath file)
         = (r, inr ts) ->
         listTags client data file w
         = (answered client r
              (GetObjectTaggingCommand (data_keys_Bucket data) (file_fullPath file)) w,
            Fulfilled (Some (map (fun tag => mkTag (Key tag) (Value tag)) ts)))).
Proof.
  intros client data file w. unfold listTags, try_catch. split; intros E; rewrite E; simpl.
  - reflexivity.
  - intros r ts G. unfold bind, send_GetObjectTagging. rewrite G. reflexivity.
Qed.

(* ------------------------------------------------------------------ *)
(** ** The memory store keeps tags; the tag properties at work on it *)

Import Fixtures.

Lemma tags_in_set_tags (K : string) (ts : list S3Tag) (objs : Bucket) :
  find (fun o => String.eqb (fst o) K) objs <> None ->
  tags_in (set_tags K ts objs) K = ts.
Proof.
  unfold tags_in. induction objs as [|[k old] objs IH]; simpl; [congruence|].
  destruct (String.eqb k K) eqn:E; simpl; rewrite E; [reflexivity|exact IH].
Qed.

Lemma memory_keeps_tags : KeepsTags memory memory_tags.
Proof.
  split; unfold memory_tags; simpl.
  - intros r B K r' ts H. unfold tags_in.
    destruct (find (fun o => String.eqb (fst o) K) r) as [o|] eqn:F;
      inversion H; subst; rewrite F; auto.
  - intros r B K r' e H. inversion H. reflexivity.
  - intros r B K ts r' H.
    destruct (find (fun o => String.eqb (fst o) K) r) as [o|] eqn:F; inversion H.
    apply tags_in_set_tags. congruence.
  - intros r B K ts r' e H.
    destruct (find (fun o => String.eqb (fst o) K) r) as [o|] eqn:F; inversion H.
    reflexivity.
Qed.

Lemma addTags_validates_then_writes_back_witness :
  (let run := addTags memory drive (a_file "p/b") "   " "v" (world (client:=memory) shelf) in
   snd run = Fulfilled false /\ sent (fst run) = [] /\ remote (fst run) = shelf) /\
  (let run := addTags memory drive (a_file "p/b") " k " "v" (world (client:=memory) shelf) in
   snd run = Fulfilled true /\
   sent (fst run) = [GetObjectTaggingCommand "bucket" "p/b";
                     PutObjectTaggingCommand "bucket" "p/b" [mkS3Tag "a" "1"; mkS3Tag "k" "v"]]).
Proof.
  split.
  - apply (proj1 (addTags_validates_then_writes_back memory drive (a_file "p/b") "   " "v"
                    (world (client:=memory) shelf))).
    reflexivity.
  - destruct (proj2 (addTags_validates_then_writes_back memory drive (a_file "p/b") " k " "v"
                       (world (client:=memory) shelf))) as [_ H]; [discriminate|].
    destruct (H shelf [mkS3Tag "a" "1"]
                (set_tags "p/b" [mkS3Tag "a" "1"; mkS3Tag "k" "v"] shelf) None
                eq_refl eq_refl) as [Hsent [_ Hres]].
    split; [exact Hres | exact Hsent].
Defined.

Lemma addTags_stores_trimmed_key_witness :
  sent (fst (addTags memory drive (a_file "p/b") " k " "v" (world (client:=memory) shelf)))
  = [GetObjectTaggingCommand "bucket" "p/b";
     PutObjectTaggingCommand "bucket" "p/b" [mkS3Tag "a" "1"; mkS3Tag "k" "v"]].
Proof.
  apply (addTags_stores_trimmed_key memory drive (a_file "p/b") " k " "v"
           (world (client:=memory) shelf) shelf [mkS3Tag "a" "1"]);
    [discriminate | reflexivity].
Defined.

Lemma removeTags_twice_same_as_once_witness :
  let w1 := fst (removeTags memory drive (a_file "p/b") "a" (world (client:=memory) shelf)) in
  let w2 := fst (removeTags memory drive (a_file "p/b") "a" w1) in
  memory_tags (remote w1) "bucket" "p/b" = [] /\
  memory_tags (remote w2) "bucket" "p/b" = memory_tags (remote w1) "bucket" "p/b".
Proof.
  intros w1 w2.
  destruct (removeTags_twice_same_as_once memory drive memory_tags memory_keeps_tags
              (a_file "p/b") "a" (world (client:=memory) shelf) w1 eq_refl)
    as [H1 [H2 _]].
  split; [exact H1 | exact H2].
Defined.


Lemma flaky_keeps_tags : KeepsTags FlakyStore.flakyClient FlakyStore.flaky_tags.
Proof.
  split; unfold FlakyStore.flaky_tags; simpl.
  - intros [n objs] B K r' ts H. simpl in H. destruct n as [|n]; [discriminate|].
    unfold tags_in. simpl.
    destruct (find (fun o => String.eqb (fst o) K) objs) as [o|] eqn:F;
      inversion H; subst; simpl; rewrite F; auto.
  - intros [n objs] B K r' e H. simpl in H.
    destruct n as [|n]; inversion H; reflexivity.
  - intros [n objs] B K ts r' H. simpl in H.
    destruct (find (fun o => String.eqb (fst o) K) objs) as [o|] eqn:F; inversion H.
    simpl. apply tags_in_set_tags. congruence.
  - intros [n objs] B K ts r' e H. simpl in H.
    destruct (find (fun o => String.eqb (fst o) K) objs) as [o|] eqn:F; inversion H.
    reflexivity.
Qed.


(** C9 as the spec has it fails: with tagging not enabled [listTags] does
    not return an empty array. *)
Lemma listTags_without_capability_not_empty_array :
  snd (listTags memory drive_without_tags (a_file "p/b") (world (client:=memory) shelf))
  <> Fulfilled (Some []).
Proof. discriminate. Qed.

Lemma listTags_returns_pairs_or_nothing_witness :
  listTags memory drive_without_tags (a_file "p/b") (world (client:=memory) shelf)
  = (world (client:=memory) shelf, Fulfilled None) /\
  snd (listTags memory drive (a_file "p/b") (world (client:=memory) shelf))
  = Fulfilled (Some [mkTag "a" "1"]).
Proof.
  split.
  - apply (proj1 (listTags_returns_pairs_or_nothing memory drive_without_tags (a_file "p/b")
                    (world (client:=memory) shelf))).
    reflexivity.
  - rewrite (proj2 (listTags_returns_pairs_or_nothing memory drive (a_file "p/b")
                      (world (client:=memory) shelf)) eq_refl shelf [mkS3Tag "a" "1"] eq_refl).
    reflexivity.
Defined.

(* ------------------------------------------------------------------ *)
(** ** Object keys *)

(** The folder the navigation effect builds always has a path that ends in a
    slash. *)
Lemma endsWithChar_append (c : ascii) (s : string) :
  endsWithChar c (s ++ String c "") = true.
Proof.
  induction s as [|d s IH]; simpl; [apply Ascii.eqb_refl|].
  destruct (s ++ String c "")%string eqn:E; [destruct s; discriminate | exact IH].
Qed.

Lemma navigate_folder_path (client : S3Client) (data : Drive) (email fullPath : string)
    (w : World client) :
  email <> ""%string ->
  exists cf,
    currentFolder (fst (navigate client data (Some email) (Some fullPath) w)) = Some cf /\
             (cf = ROOT_FOLDER \/
              exists f, cf = NamedFolder f /\ endsWithChar "/" (folder_fullPath f) = true).
Proof.
  intros He. unfold navigate.
  destruct email as [|c email]; [contradiction|].
  destruct fullPath as [|d fullPath]; simpl.
  - exists ROOT_FOLDER. auto.
  - eexists. split; [reflexivity|]. right. eexists. split; [reflexivity|].
    simpl folder_fullPath. apply (endsWithChar_append "/" (String d fullPath)).
Qed.

(** C8.  For a file name with none of the reserved characters, the key
    [addFile] builds (the name itself in the root folder, else the folder's
    path followed by the name) gives the name back as its last segment; the
    folder's path ends in a slash, as every folder path does. *)
Theorem addFile_Key_name_roundtrip :
  forall (data : Drive) (cf : CurrentFolder) (name k : string),
    has_reserved name = false ->
    addFile_Key data cf name = inr k ->
    (forall f path,
       cf = NamedFolder f ->
       decodeURIComponent data (folder_fullPath f) = inr path ->
       path = ""%string \/ endsWithChar "/" path = true) ->
    name_of_Key k = name.
Proof.
  intros data cf name k Hname Hkey Hpath.
  apply has_reserved_slash in Hname.
  unfold name_of_Key. destruct cf as [|f]; simpl in Hkey.
  - inversion Hkey. subst k. apply (pop_split_prefix "" name); auto.
  - destruct (decodeURIComponent data (folder_fullPath f)) as [e|path] eqn:D; inversion Hkey.
    apply pop_split_prefix; [|exact Hname]. eapply Hpath; eauto.
Qed.

Lemma addFile_Key_name_roundtrip_witness :
  addFile_Key drive (NamedFolder (a_folder "docs/reports/" "docs/")) "q3 (final).pdf"
  = inr "docs/reports/q3 (final).pdf"%string /\
  name_of_Key "docs/reports/q3 (final).pdf" = "q3 (final).pdf"%string.
Proof.
  split; [reflexivity|].
  apply (addFile_Key_name_roundtrip drive (NamedFolder (a_folder "docs/reports/" "docs/"))
           "q3 (final).pdf" "docs/reports/q3 (final).pdf").
  - reflexivity.
  - reflexivity.
  - intros f path Hf Hd. inversion Hf. subst f. simpl in Hd. inversion Hd.
    right. reflexivity.
Defined.

(* ------------------------------------------------------------------ *)
(** ** What a computation leaves alone *)

Section Frames.

Variable client : S3Client.
Variable data : Drive.
Context {X : Type} (f : World client -> X).

Lemma preserves_ret {A} (a : A) : preserves client f (ret client a).
Proof. intros w. reflexivity. Qed.

Lemma preserves_bind {A B} (m : M client A) (k : A -> M client B) :
  preserves client f m -> (forall a, preserves client f (k a)) ->
  preserves client f (bind client m k).
Proof.
  intros Hm Hk w. unfold bind. specialize (Hm w).
  destruct (m w) as [w' [a|e|]]; simpl in *; [rewrite Hk|..]; exact Hm.
Qed.

Lemma preserves_try_catch {A} (m : M client A) (h : Error -> M client A) :
  preserves client f m -> (forall e, preserves client f (h e)) ->
  preserves client f (try_catch client m h).
Proof.
  intros Hm Hh w. unfold try_catch. specialize (Hm w).
  destruct (m w) as [w' [a|e|]]; simpl in *; [|rewrite Hh|]; exact Hm.
Qed.

Lemma preserves_for_each {A} (body : A -> M client unit) (l : list A) :
  (forall x, preserves client f (body x)) -> preserves client f (for_each client body l).
Proof.
  intros Hb. induction l as [|x l IH]; simpl.
  - apply preserves_ret.
  - apply preserves_bind; [apply Hb | intros _; exact IH].
Qed.

Hypothesis f_store : apart_from_store client f.

Lemma preserves_ListObjectsV2 (input : ListObjectsV2Input) :
  preserves client f (send_ListObjectsV2 client input).
Proof.
  intros w. unfold send_ListObjectsV2.
  destruct (listObjectsV2 client (remote w) input) as [r res]. apply f_store.
Qed.

Lemma preserves_DeleteObjects (B : string) (Objects : list string) :
  preserves client f (send_DeleteObjects client B Objects).
Proof.
  intros w. unfold send_DeleteObjects.
  destruct (deleteObjects client (remote w) B Objects) as [r res]. apply f_store.
Qed.

Lemma preserves_emptyS3Directory (fuel : nat) (B P : string) :
  preserves client f (emptyS3Directory client fuel B P).
Proof.
  revert P. induction fuel as [|fuel IH]; intros P; simpl.
  - intros w. reflexivity.
  - apply preserves_bind; [apply preserves_ListObjectsV2|]. intros listed.
    apply preserves_bind; [apply preserves_for_each; exact IH|]. intros _.
    destruct (out_Contents listed) as [[|o os]|].
    + apply preserves_ret.
    + apply preserves_bind; [apply preserves_DeleteObjects|]. intros _.
      destruct (out_IsTruncated listed); [apply IH | apply preserves_ret].
    + intros w. reflexivity.
Qed.

Hypothesis f_files : apart_from_files client f.

Lemma preserves_add_files (cf : CurrentFolder) (results : ListObjectsV2Output)
    (Contents : list S3Object) :
  preserves client f (add_files client data cf results Contents).
Proof.
  induction Contents as [|o os IH]; simpl.
  - apply preserves_ret.
  - apply preserves_bind; [|intros _; exact IH].
    destruct (getSignedUrl data _ _); [intros w; apply f_files | apply preserves_ret].
Qed.

Lemma preserves_list_more (fuel : nat) (cf : CurrentFolder) (results : ListObjectsV2Output) :
  preserves client f (list_more client data fuel cf results).
Proof.
  revert results. induction fuel as [|fuel IH]; intros results; simpl;
    destruct (out_IsTruncated results); try apply preserves_ret; try (intros w; reflexivity).
  apply preserves_bind; [apply preserves_ListObjectsV2|]. intros page.
  apply preserves_bind; [|intros _; apply IH].
  destruct (out_Contents page); [apply preserves_add_files | intros w; reflexivity].
Qed.

End Frames.

Lemma add_files_fulfilled (client : S3Client) (data : Drive) (cf : CurrentFolder)
    (results : ListObjectsV2Output) (Contents : list S3Object) (w : World client) :
  snd (add_files client data cf results Contents w) = Fulfilled tt.
Proof.
  revert w. induction Contents as [|o os IH]; intros w; simpl; [reflexivity|].
  unfold bind. destruct (getSignedUrl data _ _); simpl; apply IH.
Qed.

(* ------------------------------------------------------------------ *)
(** ** The folder index *)

Lemma prune_index_spec (folder : DriveFolder) (index : list DriveFolder) (f : DriveFolder) :
  In f (prune_index folder index) <->
  In f index /\
  forall a b, folder_fullPath f <> (a ++ folder_fullPath folder ++ b)%string.
Proof.
  unfold prune_index. rewrite filter_In, negb_true_iff. split; intros [Hin H]; split; auto.
  - intros a b E.
    assert (includes (folder_fullPath f) (folder_fullPath folder) = true)
      by (apply includes_spec; eauto).
    congruence.
  - destruct (includes (folder_fullPath f) (folder_fullPath folder)) eqn:E; [|reflexivity].
    apply includes_spec in E as [a [b E]]. exfalso. exact (H a b E).
Qed.

(** C4.  [removeFolder] leaves in the persisted index exactly the entries
    whose path does not contain the removed folder's path as a substring: the
    entry itself goes, and so does every entry that has the path anywhere
    inside its own, at the start or not. *)
Theorem removeFolder_prunes_index_by_containment :
  forall (client : S3Client) (fuel : nat) (folder : DriveFolder) (w : World client)
         (index : list DriveFolder),
    localStorage w = Some index ->
    let w' := fst (removeFolder client fuel folder w) in
    exists index',
      localStorage w' = Some index' /\
      (forall f, In f index' <->
                 In f index /\
                 forall a b, folder_fullPath f <> (a ++ folder_fullPath folder ++ b)%string) /\
      (forall f a b, In f index ->
                     folder_fullPath f = (a ++ folder_fullPath folder ++ b)%string ->
                     ~ In f index').
Proof.
  intros client fuel folder w index Hidx w'.
  exists (prune_index folder index).
  assert (Hls : localStorage w' = Some (prune_index folder index)).
  { subst w'. unfold removeFolder, bind, setFolders, localStorage_getItem. simpl.
    rewrite Hidx. simpl.
    rewrite (preserves_emptyS3Directory client (@localStorage client)); [reflexivity|].
    intros r c w0. reflexivity. }
  split; [exact Hls|]. split.
  - intros f. apply prune_index_spec.
  - intros f a b _ E Hin. apply prune_index_spec in Hin as [_ H]. exact (H a b E).
Qed.

Lemma removeFolder_prunes_index_by_containment_witness :
  exists index',
    localStorage (fst (removeFolder memory 3 (a_folder "docs/" "")
                         (world_with_index (client:=memory) shelf an_index ROOT_FOLDER)))
    = Some index' /\
    (In (a_folder "music/" "") index' /\ ~ In (a_folder "my-docs/x/" "my-docs/") index').
Proof.
  destruct (removeFolder_prunes_index_by_containment memory 3 (a_folder "docs/" "")
              (world_with_index (client:=memory) shelf an_index ROOT_FOLDER) an_index eq_refl)
    as [index' [Hls [Hiff Hgone]]].
  exists index'. split; [exact Hls|]. split.
  - apply Hiff. split; [simpl; auto|].
    intros a b E.
    assert (H : includes "music/" "docs/" = true) by (apply includes_spec; eauto).
    discriminate.
  - apply (Hgone _ "my-"%string "x/"%string); [simpl; auto | reflexivity].
Defined.

(* ------------------------------------------------------------------ *)
(** ** The folder view of a visit *)

Section ListFolder.

Variable client : S3Client.
Variable data : Drive.

Ltac apart := first [intros ? ? ?; reflexivity | intros ? ?; reflexivity].

Lemma bind_fulfilled {A B} (m : M client A) (k : A -> M client B) (w w' : World client) (a : A) :
  m w = (w', Fulfilled a) -> bind client m k w = k a w'.
Proof. intros H. unfold bind. rewrite H. reflexivity. Qed.

Lemma after_bind {X A B} (f : World client -> X) (m : M client A) (k : A -> M client B)
    (w : World client) :
  (forall a, preserves client f (k a)) ->
  f (fst (bind client m k w)) = f (fst (m w)).
Proof.
  intros Hk. unfold bind. destruct (m w) as [w' [a|e|]]; simpl; [apply Hk|reflexivity..].
Qed.

Lemma after_try_catch {X A} (f : World client -> X) (m : M client A) (h : Error -> M client A)
    (w : World client) :
  (forall e, preserves client f (h e)) ->
  f (fst (try_catch client m h w)) = f (fst (m w)).
Proof.
  intros Hh. unfold try_catch. destruct (m w) as [w' [a|e|]]; simpl; [|apply Hh|]; reflexivity.
Qed.

(** Appending the remote folders one by one. *)
Lemma for_each_append (g : string -> DriveFolder) (Prefixes : list string)
    (w : World client) (shown : list DriveFolder) :
  folders w = Some shown ->
  exists w',
    for_each client
      (fun Prefix => setFolders client (option_map (fun folders => folders ++ [g Prefix])))
      Prefixes w = (w', Fulfilled tt) /\
    folders w' = Some (shown ++ map g Prefixes) /\
    localStorage w' = localStorage w.
Proof.
  revert w shown. induction Prefixes as [|p ps IH]; intros w shown Hw; simpl.
  - exists w. rewrite app_nil_r. auto.
  - unfold bind. simpl.
    edestruct IH as [w' [Hrun [Hf Hl]]]; [|exists w'; split; [exact Hrun|]].
    + simpl. rewrite Hw. reflexivity.
    + rewrite Hf, <- app_assoc. simpl. auto.
Qed.

Lemma list_folder_keeps_index (email : option string) (fuel : nat)
    (captured : option (list DriveFile)) :
  preserves client (@localStorage client) (list_folder client data email fuel captured).
Proof.
  assert (Hs : apart_from_store client (@localStorage client)) by (intros r c w; reflexivity).
  assert (Hf : apart_from_files client (@localStorage client)) by (intros u w; reflexivity).
  unfold list_folder. apply preserves_bind; [intros w; reflexivity|]. intros cf.
  assert (Hret : preserves client (@localStorage client) (ret client tt))
    by apply preserves_ret.
  destruct email as [[|c email]|]; try exact Hret.
  destruct cf as [cf|]; try exact Hret.
  apply preserves_bind; [intros w; reflexivity|]. intros _.
  apply preserves_bind; [|intros _ w; reflexivity].
  apply preserves_try_catch; [|intros e; exact Hret].
  destruct captured; [exact Hret|].
  apply preserves_bind; [apply preserves_ListObjectsV2; exact Hs|]. intros results.
  apply preserves_bind.
  { destruct (out_Contents results); [apply preserves_add_files; assumption | exact Hret]. }
  intros _. apply preserves_bind; [intros w; reflexivity|]. intros localFolders.
  apply preserves_bind; [intros w; reflexivity|]. intros _.
  apply preserves_bind; [apply preserves_for_each; intros p w; reflexivity|]. intros _.
  apply preserves_list_more; assumption.
Qed.

(** The folders a visit shows once the first page has arrived. *)
Lemma list_folder_folders (email : string) (fuel : nat) (w : World client)
    (cf : CurrentFolder) (r : Remote client) (results : ListObjectsV2Output) :
  email <> ""%string ->
  currentFolder w = Some cf ->
  listObjectsV2 client (remote w)
    (mkListInput (data_keys_Bucket data) (currentFolder_fullPath cf) (Some "/"%string) None)
  = (r, inr results) ->
  folders (fst (list_folder client data (Some email) fuel None w))
  = Some (local_children cf results (or_empty (localStorage w)) ++
          map (driveFolder_of data cf results) (or_empty (out_CommonPrefixes results))).
Proof.
  intros He Hcf Hlist. unfold list_folder.
  rewrite (bind_fulfilled _ _ w w (Some cf))
    by (unfold get_currentFolder; rewrite Hcf; reflexivity).
  destruct email as [|c email]; [contradiction|].
  rewrite (bind_fulfilled _ _ w _ tt) by reflexivity.
  set (w0 := mkWorld (remote w) (sent w) (toasts w) (localStorage w) (currentFolder w)
               (folders w) (files w) true).
  rewrite (after_bind (@folders client)) by (intros a w1; reflexivity).
  rewrite (after_try_catch (@folders client)) by (intros a w1; reflexivity).
  set (input := mkListInput (data_keys_Bucket data) (currentFolder_fullPath cf)
                  (Some "/"%string) None) in *.
  assert (Hsend : send_ListObjectsV2 client input w0
                  = (answered client r (ListObjectsV2Command input) w0, Fulfilled results)).
  { unfold send_ListObjectsV2. simpl. rewrite Hlist. reflexivity. }
  rewrite (bind_fulfilled _ _ _ _ _ Hsend).
  set (wa := answered client r _ w0).
  set (first := match out_Contents results with
                | Some Contents => add_files client data cf results Contents
                | None => ret client tt
                end).
  assert (Hfirst : exists wb, first wa = (wb, Fulfilled tt) /\ localStorage wb = localStorage w).
  { subst first. destruct (out_Contents results) as [Contents|].
    - exists (fst (add_files client data cf results Contents wa)). split.
      + rewrite (surjective_pairing (add_files client data cf results Contents wa)).
        rewrite add_files_fulfilled. reflexivity.
      + rewrite (preserves_add_files client data (@localStorage client));
          [reflexivity | apart..].
    - exists wa. split; reflexivity. }
  destruct Hfirst as [wb [Hwb Hlb]].
  rewrite (bind_fulfilled _ _ _ _ _ Hwb).
  rewrite (bind_fulfilled _ _ wb wb (localStorage wb)) by reflexivity.
  rewrite (bind_fulfilled _ _ wb _ tt) by reflexivity.
  match goal with |- context [for_each client ?body ?l] =>
    destruct (for_each_append (driveFolder_of data cf results) l
                (mkWorld (remote wb) (sent wb) (toasts wb) (localStorage wb) (currentFolder wb)
                   (Some (local_children cf results (or_empty (localStorage wb))))
                   (files wb) (loading wb))
                _ eq_refl) as [wd [Hwd [Hfd _]]]
  end.
  unfold setFolders at 1. simpl fst.
  rewrite (bind_fulfilled _ _ _ _ _ Hwd).
  rewrite (preserves_list_more client data (@folders client));
    [|apart..].
  rewrite Hfd, Hlb. reflexivity.
Qed.

End ListFolder.

Lemma filter_none {A} (test : A -> bool) (l : list A) :
  (forall x, In x l -> test x = false) -> filter test l = [].
Proof.
  induction l as [|x l IH]; simpl; intros H; [reflexivity|].
  rewrite (H x) by auto. apply IH. auto.
Qed.

Lemma filter_remote_folders (g : string -> DriveFolder) (p : string) (Prefixes : list string) :
  (forall q, folder_fullPath (g q) = q) ->
  In p Prefixes -> NoDup Prefixes ->
  filter (fun f => String.eqb (folder_fullPath f) p) (map g Prefixes) = [g p].
Proof.
  intros Hg. induction Prefixes as [|q qs IH]; simpl; intros Hin Hnd; [contradiction|].
  inversion Hnd as [|? ? Hq Hqs]; subst. rewrite Hg.
  destruct (String.eqb_spec q p) as [->|Hne].
  - f_equal. apply filter_none. intros f Hf. apply in_map_iff in Hf as [q [<- Hq']].
    cbv beta. rewrite Hg. apply String.eqb_neq. intros ->. contradiction.
  - destruct Hin as [->|Hin]; [contradiction|]. apply IH; assumption.
Qed.

Lemma local_children_not_remote (cf : CurrentFolder) (results : ListObjectsV2Output)
    (index : list DriveFolder) (p : string) :
  In p (or_empty (out_CommonPrefixes results)) ->
  filter (fun f => String.eqb (folder_fullPath f) p) (local_children cf results index) = [].
Proof.
  intros Hp. apply filter_none. intros f Hf. unfold local_children in Hf.
  apply filter_In in Hf as [_ Hf]. apply andb_true_iff in Hf as [_ Hf].
  apply negb_true_iff in Hf. apply String.eqb_neq. intros E. rewrite <- E in Hp.
  assert (existsb (fun prefix => String.eqb prefix (folder_fullPath f))
            (or_empty (out_CommonPrefixes results)) = true)
    by (apply existsb_exists; exists (folder_fullPath f); split;
        [exact Hp | apply String.eqb_refl]).
  congruence.
Qed.

(** C3.  On a visit whose remote page lists the prefix [p] among its
    CommonPrefixes (each prefix listed once), the folders shown have exactly
    one entry with path [p], the one made from the remote prefix: an indexed
    folder with that path is left out of the view.  The persisted index is
    the same after the visit as before. *)
Theorem list_folder_shows_remote_folder_once :
  forall (client : S3Client) (data : Drive) (email : string) (fuel : nat)
         (w : World client) (cf : CurrentFolder) (r : Remote client)
         (results : ListObjectsV2Output) (p : string),
    email <> ""%string ->
    currentFolder w = Some cf ->
    listObjectsV2 client (remote w)
      (mkListInput (data_keys_Bucket data) (currentFolder_fullPath cf) (Some "/"%string) None)
    = (r, inr results) ->
    In p (or_empty (out_CommonPrefixes results)) ->
    NoDup (or_empty (out_CommonPrefixes results)) ->
    let w' := fst (list_folder client data (Some email) fuel None w) in
    exists shown,
      folders w' = Some shown /\
      filter (fun f => String.eqb (folder_fullPath f) p) shown
      = [driveFolder_of data cf results p] /\
      localStorage w' = localStorage w.
Proof.
  intros client data email fuel w cf r results p He Hcf Hlist Hp Hnd w'.
  eexists. split.
  { apply (list_folder_folders client data email fuel w cf r results He Hcf Hlist). }
  split.
  - rewrite filter_app, (local_children_not_remote _ _ _ _ Hp). simpl.
    apply filter_remote_folders; auto.
  - apply list_folder_keeps_index.
Qed.

Lemma list_folder_shows_remote_folder_once_witness :
  let w := world_with_index (client:=pagedClient docs_pages) tt an_index docs in
  In (a_folder "docs/reports/" "docs/") an_index /\
  exists shown,
    folders (fst (list_folder (pagedClient docs_pages) drive (Some "u@example.org"%string) 1
                    None w)) = Some shown /\
    filter (fun f => String.eqb (folder_fullPath f) "docs/reports/") shown
    = [mkDriveFolder "reports" "docs/reports/" "docs/" None "bucket"
         "https://bucket.s3.us-east-1.amazonaws.com"] /\
    localStorage (fst (list_folder (pagedClient docs_pages) drive
                         (Some "u@example.org"%string) 1 None w)) = Some an_index.
Proof.
  intros w. split; [simpl; auto|].
  apply (list_folder_shows_remote_folder_once (pagedClient docs_pages) drive
           "u@example.org" 1 w docs tt (snd (hd (None, mkListOutput None None false "" None None)
                                                docs_pages)) "docs/reports/").
  - discriminate.
  - reflexivity.
  - reflexivity.
  - simpl. auto.
  - simpl. constructor; [simpl; tauto | constructor].
Defined.

(* ------------------------------------------------------------------ *)
(** ** Pagination of a visit *)

(** One turn of the loop on the first page of [docs_pages]: the request
    carries no token, so the store answers with the first page again. *)
Lemma list_more_docs_turn (fuel : nat) (w : World (pagedClient docs_pages)) :
  list_more (pagedClient docs_pages) drive (S fuel) docs docs_page1 w
  = list_more (pagedClient docs_pages) drive fuel docs docs_page1
      (mkWorld (remote w) (sent w ++ [docs_request]) (toasts w) (localStorage w)
         (currentFolder w) (folders w)
         (match files w with
          | Some shown => Some (shown ++ [docs_a])
          | None => Some [docs_a]
          end)
         (loading w)).
Proof. reflexivity. Qed.

Lemma list_more_docs_stalls (fuel : nat) (w : World (pagedClient docs_pages))
    (shown : list DriveFile) :
  files w = Some shown ->
  let run := list_more (pagedClient docs_pages) drive fuel docs docs_page1 w in
  snd run = Pending /\
  sent (fst run) = sent w ++ repeat docs_request fuel /\
  files (fst run) = Some (shown ++ repeat docs_a fuel) /\
  folders (fst run) = folders w.
Proof.
  revert w shown. induction fuel as [|fuel IH]; intros w shown Hw.
  - simpl. rewrite !app_nil_r. auto.
  - cbv zeta. rewrite list_more_docs_turn.
    match goal with |- context [list_more _ _ fuel docs _ ?w1] =>
      destruct (IH w1 (shown ++ [docs_a])) as [Hp [Hs [Hf Hd]]];
        [simpl; rewrite Hw; reflexivity|]
    end.
    repeat split.
    + exact Hp.
    + rewrite Hs. simpl. rewrite <- app_assoc. reflexivity.
    + rewrite Hf. rewrite <- app_assoc. reflexivity.
    + rewrite Hd. reflexivity.
Qed.

(** C1 fails on the code.  On the folder [docs/] served in two pages, the
    loop asks for the next page with the token the page was requested with,
    which is none: however long it runs it has not finished, every request is
    the first one again, its file [docs/a.txt] is added once more each time,
    and [docs/b.txt] and the folder [docs/zips/] of the second page never
    arrive.  Even against a store that would hand the next token in
    [ContinuationToken] the visit ends with both files but without the
    second page's folder. *)
Theorem list_folder_pagination_repeats_first_page :
  forall fuel : nat,
    let run := list_folder (pagedClient docs_pages) drive (Some "u@example.org"%string)
                 fuel None (world_with_index (client:=pagedClient docs_pages) tt [] docs) in
    let run' := list_folder (pagedClient docs_pages_forwarding) drive
                  (Some "u@example.org"%string) (S fuel) None
                  (world_with_index (client:=pagedClient docs_pages_forwarding) tt [] docs) in
    (snd run = Pending /\
     sent (fst run) = repeat docs_request (S fuel) /\
     files (fst run) = Some (repeat docs_a (S fuel)) /\
     option_map (map folder_fullPath) (folders (fst run)) = Some ["docs/reports/"%string]) /\
    (snd run' = Fulfilled tt /\
     files (fst run') = Some [docs_a; docs_b] /\
     option_map (map folder_fullPath) (folders (fst run')) = Some ["docs/reports/"%string]).
Proof.
  intros fuel run run'. split.
  - subst run. unfold list_folder.
    set (w1 := mkWorld (client:=pagedClient docs_pages) tt [docs_request] [] (Some [])
                 (Some docs)
                 (Some [mkDriveFolder "reports" "docs/reports/" "docs/" None "bucket"
                          "https://bucket.s3.us-east-1.amazonaws.com"])
                 (Some [docs_a]) true).
    destruct (list_more_docs_stalls fuel w1 [docs_a] eq_refl) as [Hp [Hs [Hf Hd]]].
    assert (E : list_folder (pagedClient docs_pages) drive (Some "u@example.org"%string)
                  fuel None (world_with_index (client:=pagedClient docs_pages) tt [] docs)
                = (fst (list_more (pagedClient docs_pages) drive fuel docs docs_page1 w1),
                   Pending)).
    { unfold list_folder, bind, try_catch. simpl.
      change (list_more (pagedClient docs_pages) drive fuel docs _ _)
        with (list_more (pagedClient docs_pages) drive fuel docs docs_page1 w1).
      destruct (list_more (pagedClient docs_pages) drive fuel docs docs_page1 w1)
        as [w2 res]. simpl in Hp. subst res. reflexivity. }
    fold (list_folder (pagedClient docs_pages) drive (Some "u@example.org"%string) fuel None
            (world_with_index (client:=pagedClient docs_pages) tt [] docs)).
    rewrite E. simpl fst. simpl snd. rewrite Hs, Hf, Hd. simpl. auto.
  - subst run'. destruct fuel; vm_compute; auto.
Qed.

(* ------------------------------------------------------------------ *)
(** ** The recursive delete *)

Section DeleteFacts.

Variable client : S3Client.
Variable Bucket : string.

Lemma emptyS3Directory_S (fuel : nat) (Prefix : string) :
  emptyS3Directory client (S fuel) Bucket Prefix
  = bind client (send_ListObjectsV2 client (mkListInput Bucket Prefix None None))
      (fun listedObjects =>
         bind client
           (for_each client (emptyS3Directory client fuel Bucket)
              (or_empty (out_CommonPrefixes listedObjects)))
           (fun _ => delete_page client Bucket (emptyS3Directory client fuel Bucket Prefix)
                       listedObjects)).
Proof. reflexivity. Qed.

Lemma settles_like_bind {A B} (m m' : M client A) (k k' : A -> M client B) :
  settles_like client m m' -> (forall a, settles_like client (k a) (k' a)) ->
  settles_like client (bind client m k) (bind client m' k').
Proof.
  intros Hm Hk w w' res. unfold bind.
  destruct (m w) as [w1 [a|e|]] eqn:E.
  - rewrite (Hm _ _ _ E) by discriminate. apply Hk.
  - rewrite (Hm _ _ _ E) by discriminate. auto.
  - intros H Hres. inversion H. subst. contradiction.
Qed.

Lemma settles_like_refl {A} (m : M client A) : settles_like client m m.
Proof. intros w w' res H _. exact H. Qed.

Lemma settles_like_for_each {A} (body body' : A -> M client unit) (l : list A) :
  (forall x, settles_like client (body x) (body' x)) ->
  settles_like client (for_each client body l) (for_each client body' l).
Proof.
  intros Hb. induction l as [|x l IH]; simpl.
  - apply settles_like_refl.
  - apply settles_like_bind; [apply Hb | intros _; exact IH].
Qed.

Lemma settles_like_delete_page (again again' : M client unit) (page : ListObjectsV2Output) :
  settles_like client again again' ->
  settles_like client (delete_page client Bucket again page)
    (delete_page client Bucket again' page).
Proof.
  intros Ha. unfold delete_page.
  destruct (out_Contents page) as [[|o os]|]; try apply settles_like_refl.
  apply settles_like_bind; [apply settles_like_refl|]. intros _.
  destruct (out_IsTruncated page); [exact Ha | apply settles_like_refl].
Qed.

(** Fuel beyond what a run needs changes nothing. *)
Lemma emptyS3Directory_more_fuel (n m : nat) (Prefix : string) :
  n <= m ->
  settles_like client (emptyS3Directory client n Bucket Prefix)
    (emptyS3Directory client m Bucket Prefix).
Proof.
  revert m Prefix. induction n as [|n IH]; intros m Prefix Hle.
  - intros w w' res H Hres. simpl in H. inversion H. subst. contradiction.
  - destruct m as [|m]; [lia|]. rewrite !emptyS3Directory_S.
    apply settles_like_bind; [apply settles_like_refl|]. intros page.
    apply settles_like_bind.
    + apply settles_like_for_each. intros P. apply IH. lia.
    + intros _. apply settles_like_delete_page. apply IH. lia.
Qed.

Lemma for_each_sound (n : nat) :
  (forall P w w', emptyS3Directory client n Bucket P w = (w', Fulfilled tt) ->
                  Emptied client Bucket P w w') ->
  forall Ps w w',
    for_each client (emptyS3Directory client n Bucket) Ps w = (w', Fulfilled tt) ->
    EmptiedEach client Bucket Ps w w'.
Proof.
  intros IH Ps. induction Ps as [|P Ps IHPs]; intros w w' H; simpl in H.
  - inversion H. constructor.
  - unfold bind in H.
    destruct (emptyS3Directory client n Bucket P w) as [w1 [[]|e|]] eqn:E; try discriminate.
    econstructor; eauto.
Qed.

Lemma emptyS3Directory_sound (n : nat) :
  forall P w w', emptyS3Directory client n Bucket P w = (w', Fulfilled tt) ->
                 Emptied client Bucket P w w'.
Proof.
  induction n as [|n IH]; intros P w w' H; [discriminate|].
  rewrite emptyS3Directory_S in H. unfold bind in H.
  destruct (send_ListObjectsV2 client _ w) as [w1 [page|e|]] eqn:L; try discriminate.
  destruct (for_each client _ _ w1) as [w2 [[]|e|]] eqn:F; try discriminate.
  apply (for_each_sound n IH) in F.
  econstructor; [exact L | exact F |].
  unfold delete_page in H.
  destruct (out_Contents page) as [[|o os]|] eqn:C; try discriminate.
  - inversion H. subst. constructor. exact C.
  - unfold bind in H.
    destruct (send_DeleteObjects client Bucket _ w2) as [w3 [[]|e|]] eqn:D; try discriminate.
    destruct (out_IsTruncated page) eqn:T.
    + eapply Deleted_more; eauto.
    + inversion H. subst. eapply Deleted_last; eauto.
Qed.

Lemma emptyS3Directory_complete :
  forall P w w', Emptied client Bucket P w w' ->
                 exists n, emptyS3Directory client n Bucket P w = (w', Fulfilled tt).
Proof.
  apply (Emptied_ind3 client Bucket
    (fun P w w' => exists n, emptyS3Directory client n Bucket P w = (w', Fulfilled tt))
    (fun Ps w w' => exists n,
       for_each client (emptyS3Directory client n Bucket) Ps w = (w', Fulfilled tt))
    (fun P page w w' => exists n,
       delete_page client Bucket (emptyS3Directory client n Bucket P) page w
       = (w', Fulfilled tt))).
  - intros P w w1 w2 w3 page L _ [n2 H2] _ [n3 H3].
    exists (S (Nat.max n2 n3)). rewrite emptyS3Directory_S. unfold bind. rewrite L.
    rewrite (settles_like_for_each (emptyS3Directory client n2 Bucket)
               (emptyS3Directory client (Nat.max n2 n3) Bucket) _
               (fun P' => emptyS3Directory_more_fuel n2 _ P' (Nat.le_max_l n2 n3))
               _ _ _ H2) by discriminate.
    apply (settles_like_delete_page _ _ page
             (emptyS3Directory_more_fuel n3 _ P (Nat.le_max_r n2 n3)) _ _ _ H3).
    discriminate.
  - intros w. exists 0. reflexivity.
  - intros P Ps w w1 w2 _ [n1 H1] _ [n2 H2].
    exists (Nat.max n1 n2). simpl. unfold bind.
    rewrite (emptyS3Directory_more_fuel n1 _ P (Nat.le_max_l n1 n2) _ _ _ H1) by discriminate.
    apply (settles_like_for_each (emptyS3Directory client n2 Bucket)
             (emptyS3Directory client (Nat.max n1 n2) Bucket) _
             (fun P' => emptyS3Directory_more_fuel n2 _ P' (Nat.le_max_r n1 n2))
             _ _ _ H2).
    discriminate.
  - intros P page w C. exists 0. unfold delete_page. rewrite C. reflexivity.
  - intros P page o os w w1 C D T. exists 0. unfold delete_page, bind. rewrite C, D, T.
    reflexivity.
  - intros P page o os w w1 w2 C D T _ [n H]. exists n.
    unfold delete_page, bind. rewrite C, D, T. exact H.
Qed.

End DeleteFacts.

(** C2 (as amended).  The completed runs of [emptyS3Directory] are exactly
    the runs [Emptied] describes: the prefix is listed without a delimiter
    and without a continuation token, every folder prefix of the page is
    emptied before the page's objects are deleted, all keys of the page go in
    one DeleteObjects request, a truncated page is followed by listing the
    same prefix from the start, and the run ends after the delete of a page
    that is not truncated or on a page whose contents are an empty array.
    On a prefix whose listing has an empty array of contents and names no
    folder prefix, the only command sent is that listing and the call
    completes without an error. *)
Theorem emptyS3Directory_completed_runs :
  forall (client : S3Client) (Bucket Prefix : string) (w : World client),
    (forall w',
       (exists fuel, emptyS3Directory client fuel Bucket Prefix w = (w', Fulfilled tt)) <->
       Emptied client Bucket Prefix w w') /\
    (forall fuel r page,
       listObjectsV2 client (remote w) (mkListInput Bucket Prefix None None) = (r, inr page) ->
       or_empty (out_CommonPrefixes page) = [] ->
       out_Contents page = Some [] ->
       emptyS3Directory client (S fuel) Bucket Prefix w
       = (answered client r (ListObjectsV2Command (mkListInput Bucket Prefix None None)) w,
          Fulfilled tt)).
Proof.
  intros client Bucket Prefix w. split.
  - intros w'. split.
    + intros [fuel H]. eapply emptyS3Directory_sound; eauto.
    + apply emptyS3Directory_complete.
  - intros fuel r page L P C. rewrite emptyS3Directory_S.
    unfold bind, send_ListObjectsV2. rewrite L. simpl. rewrite P. simpl.
    unfold delete_page. rewrite C. reflexivity.
Qed.

Lemma emptyS3Directory_completed_runs_witness :
  Emptied memory "bucket" "p/" (world (client:=memory) shelf)
    (fst (emptyS3Directory memory 2 "bucket" "p/" (world (client:=memory) shelf))) /\
  emptyS3Directory memory 1 "bucket" "zz/" (world (client:=memory) shelf)
  = (mkWorld (client:=memory) shelf
       [ListObjectsV2Command (mkListInput "bucket" "zz/" None None)] [] None None None None
       false,
     Fulfilled tt).
Proof.
  split.
  - apply (proj1 (emptyS3Directory_completed_runs memory "bucket" "p/"
                    (world (client:=memory) shelf))).
    exists 2. reflexivity.
  - apply (proj2 (emptyS3Directory_completed_runs memory "bucket" "zz/"
                    (world (client:=memory) shelf))
             0 shelf (mkListOutput (Some []) None false "bucket" None None));
      reflexivity.
Defined.

(** C2 as the spec has it fails: emptying [p/] on the memory store, whose
    first page is truncated, lists without a delimiter, and the listing that
    follows the truncated page carries no continuation token. *)
Lemma emptyS3Directory_lists_flat_without_token :
  let run := emptyS3Directory memory 2 "bucket" "p/" (world (client:=memory) shelf) in
  sent (fst run)
  = [ListObjectsV2Command (mkListInput "bucket" "p/" None None);
     DeleteObjectsCommand "bucket" ["p/a"; "p/b"]%string;
     ListObjectsV2Command (mkListInput "bucket" "p/" None None);
     DeleteObjectsCommand "bucket" ["p/c"%string]] /\
  ~ (forall input, In (ListObjectsV2Command input) (sent (fst run)) ->
                   in_Delimiter input = Some "/"%string) /\
  ~ (exists input, In (ListObjectsV2Command input) (sent (fst run)) /\
                   in_ContinuationToken input <> None).
Proof.
  intros run. split; [reflexivity|]. split.
  - intros H. specialize (H (mkListInput "bucket" "p/" None None)).
    simpl in H. discriminate H. auto.
  - intros [input [Hin Htok]]. simpl in Hin.
    destruct Hin as [E|[E|[E|[E|[]]]]]; inversion E; subst; apply Htok; reflexivity.
Qed.

(** With a store that leaves [Contents] undefined on a page without keys,
    emptying a prefix that holds nothing is rejected with a TypeError. *)
Example emptyS3Directory_undefined_Contents :
  emptyS3Directory (memoryClient 2 false) 1 "bucket" "zz/"
    (world (client:=memoryClient 2 false) shelf)
  = (mkWorld (client:=memoryClient 2 false) shelf
       [ListObjectsV2Command (mkListInput "bucket" "zz/" None None)] [] None None None None
       false,
     Rejected (TypeError "Cannot read properties of undefined (reading 'length')")).
Proof. reflexivity. Qed.

(* ================================================================== *)
(** * Further properties of the provider *)

(** ** Tags: errors, toasts and how the operations compose *)

Section MoreTagFacts.

Variable client : S3Client.
Variable data : Drive.

Local Abbreviation B := (data_keys_Bucket data).
Local Abbreviation fetch file := (GetObjectTaggingCommand B (file_fullPath file)).

Lemma listTags_run (file : DriveFile) (w : World client) :
  listTags client data file w =
  if enableTags data then
    match getObjectTagging client (remote w) B (file_fullPath file) with
    | (r, inl e) =>
        (toasted client ("Error: " ++ message e) (answered client r (fetch file) w),
         Fulfilled None)
    | (r, inr ts) => (answered client r (fetch file) w, Fulfilled (Some (map as_Tag ts)))
    end
  else (w, Fulfilled None).
Proof.
  unfold listTags, try_catch, bind, send_GetObjectTagging.
  destruct (enableTags data); simpl; [|reflexivity].
  destruct (getObjectTagging client (remote w) _ _) as [r [e|ts]]; reflexivity.
Qed.

Lemma written_back_toasts (K : string) (ts : list S3Tag) (w : World client) :
  let run := written_back client data K ts w in
  sent (fst run) = sent w ++ [PutObjectTaggingCommand B K ts] /\
  ((snd run = Fulfilled true /\ toasts (fst run) = toasts w) \/
   (snd run = Fulfilled false /\ exists msg, toasts (fst run) = toasts w ++ [msg])).
Proof.
  unfold written_back.
  destruct (putObjectTagging client (remote w) B K ts) as [r [e|]]; simpl; split; eauto.
Qed.

Lemma trimStart_fixed (s : string) : startsWithWhiteSpace s = false -> trimStart s = s.
Proof. destruct s as [|c s]; simpl; intros H; [reflexivity | rewrite H; reflexivity]. Qed.

Lemma trimEnd_idem (s : string) : trimEnd (trimEnd s) = trimEnd s.
Proof.
  induction s as [|c s IH]; simpl; [reflexivity|].
  destruct (trimEnd s) as [|d t] eqn:E.
  - destruct (isWhiteSpace c) eqn:W; simpl; [reflexivity | rewrite W; reflexivity].
  - simpl in *. rewrite IH. reflexivity.
Qed.

Lemma trim_idem (s : string) : trim (trim s) = trim s.
Proof.
  unfold trim at 1.
  rewrite (trimStart_fixed (trim s)) by apply trim_no_surrounding.
  unfold trim. apply trimEnd_idem.
Qed.

Lemma trim_all_whitespace (s : string) : all_whitespace s = true -> trim s = ""%string.
Proof.
  unfold trim. induction s as [|c s IH]; simpl; intros H; [reflexivity|].
  apply andb_true_iff in H as [Hc Hs]. rewrite Hc. auto.
Qed.

End MoreTagFacts.

(** X1.  [listTags] never rejects.  When the fetch fails it shows one error
    toast with the error's message and returns nothing, the same value it
    returns when tagging is not enabled. *)
Theorem listTags_swallows_fetch_failure :
  forall (client : S3Client) (data : Drive) (file : DriveFile) (w : World client),
    (exists tags, snd (listTags client data file w) = Fulfilled tags) /\
    (enableTags data = true ->
     forall r e,
       getObjectTagging client (remote w) (data_keys_Bucket data) (file_fullPath file)
       = (r, inl e) ->
       snd (listTags client data file w) = Fulfilled None /\
       toasts (fst (listTags client data file w))
       = toasts w ++ [("Error: " ++ message e)%string] /\
       sent (fst (listTags client data file w))
       = sent w ++ [GetObjectTaggingCommand (data_keys_Bucket data) (file_fullPath file)]).
Proof.
  intros client data file w. rewrite listTags_run. split.
  - destruct (enableTags data); [|simpl; eauto].
    destruct (getObjectTagging client (remote w) _ _) as [r [e|ts]]; simpl; eauto.
  - intros E r e G. rewrite E, G. simpl. auto.
Qed.

Lemma listTags_swallows_fetch_failure_witness :
  snd (listTags memory drive (a_file "p/none") (world (client:=memory) shelf)) = Fulfilled None /\
  toasts (fst (listTags memory drive (a_file "p/none") (world (client:=memory) shelf)))
  = ["Error: NoSuchKey"%string].
Proof.
  destruct (proj2 (listTags_swallows_fetch_failure memory drive (a_file "p/none")
                     (world (client:=memory) shelf)) eq_refl shelf
              (ServiceException "NoSuchKey") eq_refl) as [H1 [H2 _]].
  split; [exact H1 | exact H2].
Defined.

(** X2.  [removeTags] shows an error toast exactly when it returns [false]:
    none when it returns [true], one when the write failed.  When the fetch
    fails it rejects with that error instead of returning: no write is sent
    and no toast is shown. *)
Theorem removeTags_false_means_toast :
  forall (client : S3Client) (data : Drive) (file : DriveFile) (key : string)
         (w : World client),
    let B := data_keys_Bucket data in
    let K := file_fullPath file in
    let run := removeTags client data file key w in
    match snd run with
    | Fulfilled true => toasts (fst run) = toasts w
    | Fulfilled false => exists msg, toasts (fst run) = toasts w ++ [msg]
    | Rejected e =>
        (exists r, getObjectTagging client (remote w) B K = (r, inl e)) /\
        toasts (fst run) = toasts w /\
        sent (fst run) = sent w ++ [GetObjectTaggingCommand B K]
    | Pending => False
    end.
Proof.
  intros client data file key w B K run. subst run. rewrite removeTags_run. fold B K.
  destruct (getObjectTagging client (remote w) B K) as [r [e|ts]] eqn:G; simpl.
  - eauto.
  - match goal with |- context [written_back client data K ?ts ?w0] =>
      destruct (written_back_toasts client data K ts w0) as [_ [[H1 H2]|[H1 H2]]]
    end; rewrite H1; exact H2.
Qed.

(** X3.  [addTags] likewise: a [false] comes with exactly one error toast
    (the blank key, or the failed write), a [true] with none, and a failed
    fetch makes it reject without a write and without a toast. *)
Theorem addTags_false_means_toast :
  forall (client : S3Client) (data : Drive) (file : DriveFile) (key value : string)
         (w : World client),
    let B := data_keys_Bucket data in
    let K := file_fullPath file in
    let run := addTags client data file key value w in
    match snd run with
    | Fulfilled true => toasts (fst run) = toasts w
    | Fulfilled false => exists msg, toasts (fst run) = toasts w ++ [msg]
    | Rejected e =>
        (exists r, getObjectTagging client (remote w) B K = (r, inl e)) /\
        toasts (fst run) = toasts w /\
        sent (fst run) = sent w ++ [GetObjectTaggingCommand B K]
    | Pending => False
    end.
Proof.
  intros client data file key value w B K run. subst run.
  destruct (string_dec (trim key) "") as [E|E].
  - rewrite (addTags_blank _ _ _ _ _ _ E). simpl. eauto.
  - rewrite (addTags_run _ _ _ _ _ _ E). fold B K.
    destruct (getObjectTagging client (remote w) B K) as [r [e|ts]] eqn:G; simpl.
    + eauto.
    + match goal with |- context [written_back client data K ?ts ?w0] =>
        destruct (written_back_toasts client data K ts w0) as [_ [[H1 H2]|[H1 H2]]]
      end; rewrite H1; exact H2.
Qed.

(** X4.  On a store that keeps tags, after a [removeTags] that returned
    [true] a [listTags] that returns tags returns the earlier ones without
    those of the removed key: no listed tag has that key. *)
Theorem removeTags_then_listTags :
  forall (client : S3Client) (data : Drive)
         (tags : Remote client -> string -> string -> list S3Tag),
    KeepsTags client tags ->
    forall (file : DriveFile) (k : string) (w w1 : World client) (listed : list Tag),
      removeTags client data file k w = (w1, Fulfilled true) ->
      snd (listTags client data file w1) = Fulfilled (Some listed) ->
      listed = map as_Tag
                 (filter (fun tag => negb (String.eqb (Key tag) k))
                    (tags (remote w) (data_keys_Bucket data) (file_fullPath file))) /\
      forall t, In t listed -> key t <> k.
Proof.
  intros client data tags kept file k w w1 listed Hrem Hlist.
  pose proof (removeTags_true_tags client data tags kept file k w w1 Hrem) as Ht.
  rewrite listTags_run in Hlist.
  destruct (enableTags data); [|discriminate].
  destruct (getObjectTagging client (remote w1) _ _) as [r [e|ts]] eqn:G; [discriminate|].
  destruct (get_returns _ _ kept _ _ _ _ _ G) as [-> _].
  simpl in Hlist. inversion Hlist as [Hl]. rewrite Ht. split; [reflexivity|].
  intros t Hin. apply in_map_iff in Hin as [s [<- Hs]].
  apply filter_In in Hs as [_ Hs]. apply negb_true_iff, String.eqb_neq in Hs. exact Hs.
Qed.

Lemma removeTags_then_listTags_witness :
  let w1 := fst (removeTags memory drive (a_file "p/b") "x" (world (client:=memory) shelf)) in
  snd (listTags memory drive (a_file "p/b") w1) = Fulfilled (Some [mkTag "a" "1"]) /\
  forall t, In t [mkTag "a" "1"] -> key t <> "x"%string.
Proof.
  intros w1. split; [reflexivity|].
  apply (proj2 (removeTags_then_listTags memory drive memory_tags memory_keeps_tags
                  (a_file "p/b") "x" (world (client:=memory) shelf) w1 [mkTag "a" "1"]
                  eq_refl eq_refl)).
Defined.

(** X5.  On a store that keeps tags, after an [addTags] that returned [true]
    a [listTags] that returns tags returns the earlier ones followed by the
    new tag, its key trimmed. *)
Theorem addTags_then_listTags :
  forall (client : S3Client) (data : Drive)
         (tags : Remote client -> string -> string -> list S3Tag),
    KeepsTags client tags ->
    forall (file : DriveFile) (k v : string) (w w1 : World client) (listed : list Tag),
      addTags client data file k v w = (w1, Fulfilled true) ->
      snd (listTags client data file w1) = Fulfilled (Some listed) ->
      listed = map as_Tag (tags (remote w) (data_keys_Bucket data) (file_fullPath file))
               ++ [mkTag (trim k) v].
Proof.
  intros client data tags kept file k v w w1 listed Hadd Hlist.
  pose proof (addTags_true_tags client data tags kept file k v w w1 Hadd) as Ht.
  rewrite listTags_run in Hlist.
  destruct (enableTags data); [|discriminate].
  destruct (getObjectTagging client (remote w1) _ _) as [r [e|ts]] eqn:G; [discriminate|].
  destruct (get_returns _ _ kept _ _ _ _ _ G) as [-> _].
  simpl in Hlist. inversion Hlist as [Hl]. rewrite Ht, map_app. reflexivity.
Qed.

Lemma addTags_then_listTags_witness :
  let w1 := fst (addTags memory drive (a_file "p/b") " k " "v" (world (client:=memory) shelf)) in
  snd (listTags memory drive (a_file "p/b") w1)
  = Fulfilled (Some [mkTag "a" "1"; mkTag "k" "v"]) /\
  [mkTag "a" "1"; mkTag "k" "v"]
  = map as_Tag (memory_tags shelf "bucket" "p/b") ++ [mkTag (trim " k ") "v"].
Proof.
  intros w1. split; [reflexivity|].
  apply (addTags_then_listTags memory drive memory_tags memory_keeps_tags
           (a_file "p/b") " k " "v" (world (client:=memory) shelf) w1);
    reflexivity.
Defined.

(** X6.  On a store that keeps tags, when [editTags] returns [true] the file
    is left with its earlier tags without those of [prevTag.key] (whatever
    their values), followed by the new tag with its key trimmed. *)
Theorem editTags_true_tags :
  forall (client : S3Client) (data : Drive)
         (tags : Remote client -> string -> string -> list S3Tag),
    KeepsTags client tags ->
    forall (file : DriveFile) (prevTag newTag : Tag) (w w' : World client),
      editTags client data file prevTag newTag w = (w', Fulfilled true) ->
      tags (remote w') (data_keys_Bucket data) (file_fullPath file)
      = filter (fun tag => negb (String.eqb (Key tag) (key prevTag)))
          (tags (remote w) (data_keys_Bucket data) (file_fullPath file))
        ++ [mkS3Tag (trim (key newTag)) (value newTag)].
Proof.
  intros client data tags kept file prevTag newTag w w' H.
  rewrite editTags_run in H.
  destruct (removeTags client data file (key prevTag) w) as [w1 [[|]|e|]] eqn:R;
    try discriminate.
  destruct (addTags client data file (key newTag) (value newTag) w1) as [w2 [[|]|e|]] eqn:A;
    try discriminate.
  - inversion H. subst w2.
    rewrite (addTags_true_tags client data tags kept file _ _ _ _ A).
    rewrite (removeTags_true_tags client data tags kept file _ _ _ R). reflexivity.
  - destruct (addTags client data file (key prevTag) (value prevTag) w2) as [w3 [b|e|]];
      discriminate.
Qed.

Lemma editTags_true_tags_witness :
  let run := editTags memory drive (a_file "p/b") (mkTag "a" "1") (mkTag " b" "2")
               (world (client:=memory) shelf) in
  snd run = Fulfilled true /\
  memory_tags (remote (fst run)) "bucket" "p/b" = [mkS3Tag "b" "2"].
Proof.
  intros run. split; [reflexivity|].
  apply (editTags_true_tags memory drive memory_tags memory_keeps_tags (a_file "p/b")
           (mkTag "a" "1") (mkTag " b" "2") (world (client:=memory) shelf) (fst run)).
  reflexivity.
Defined.

(** X7.  A key made of white space only is refused like the empty key:
    [addTags] returns [false] with the blank-key toast and sends nothing. *)
Theorem addTags_refuses_whitespace_key :
  forall (client : S3Client) (data : Drive) (file : DriveFile) (k v : string)
         (w : World client),
    all_whitespace k = true ->
    snd (addTags client data file k v w) = Fulfilled false /\
    toasts (fst (addTags client data file k v w))
    = toasts w ++ ["Error: Tag key is blank."%string] /\
    sent (fst (addTags client data file k v w)) = sent w /\
    remote (fst (addTags client data file k v w)) = remote w.
Proof.
  intros client data file k v w H.
  rewrite (addTags_blank _ _ _ _ _ _ (trim_all_whitespace _ H)). simpl. auto.
Qed.

Lemma addTags_refuses_whitespace_key_witness :
  snd (addTags memory drive (a_file "p/b") "   " "v" (world (client:=memory) shelf))
  = Fulfilled false.
Proof.
  apply (addTags_refuses_whitespace_key memory drive (a_file "p/b") "   " "v"
           (world (client:=memory) shelf)).
  reflexivity.
Defined.

(** X8.  White space around the key makes no difference to [addTags]: the
    call with [key] and the call with [key.trim()] do the same. *)
Theorem addTags_ignores_surrounding_whitespace :
  forall (client : S3Client) (data : Drive) (file : DriveFile) (k v : string)
         (w : World client),
    addTags client data file k v w = addTags client data file (trim k) v w.
Proof.
  intros client data file k v w. unfold addTags. rewrite trim_idem. reflexivity.
Qed.

(** X9.  [removeTags] compares the key as given, untrimmed.  On a store that
    keeps tags, a tag added with a key that has white space around it is
    still there after a [removeTags] with that same key. *)
Theorem removeTags_does_not_trim :
  forall (client : S3Client) (data : Drive)
         (tags : Remote client -> string -> string -> list S3Tag),
    KeepsTags client tags ->
    forall (file : DriveFile) (k v : string) (w w1 w2 : World client),
      trim k <> k ->
      addTags client data file k v w = (w1, Fulfilled true) ->
      removeTags client data file k w1 = (w2, Fulfilled true) ->
      In (mkS3Tag (trim k) v)
         (tags (remote w2) (data_keys_Bucket data) (file_fullPath file)).
Proof.
  intros client data tags kept file k v w w1 w2 Hk Hadd Hrem.
  rewrite (removeTags_true_tags client data tags kept file _ _ _ Hrem).
  rewrite (addTags_true_tags client data tags kept file _ _ _ _ Hadd).
  unfold without_key. apply filter_In. split.
  - apply in_or_app. right. simpl. auto.
  - simpl. apply negb_true_iff, String.eqb_neq. exact Hk.
Qed.

Lemma removeTags_does_not_trim_witness :
  let w1 := fst (addTags memory drive (a_file "p/a") " k " "v" (world (client:=memory) shelf)) in
  let w2 := fst (removeTags memory drive (a_file "p/a") " k " w1) in
  In (mkS3Tag "k" "v") (memory_tags (remote w2) "bucket" "p/a").
Proof.
  intros w1 w2.
  apply (removeTags_does_not_trim memory drive memory_tags memory_keeps_tags (a_file "p/a")
           " k " "v" (world (client:=memory) shelf) w1 w2);
    [discriminate | reflexivity | reflexivity].
Defined.

(* ------------------------------------------------------------------ *)
(** ** A visit: guards, failures and a listing of one page *)

Section MoreListFacts.

Variable client : S3Client.
Variable data : Drive.

Lemma never_rejects_bind {A B} (m : M client A) (k : A -> M client B) :
  never_rejects client m -> (forall a, never_rejects client (k a)) ->
  never_rejects client (bind client m k).
Proof.
  intros Hm Hk w e. unfold bind. specialize (Hm w).
  destruct (m w) as [w' [a|e'|]]; simpl in *.
  - apply Hk.
  - exfalso. exact (Hm e' eq_refl).
  - discriminate.
Qed.

Lemma never_rejects_try_catch {A} (m : M client A) (h : Error -> M client A) :
  (forall e, never_rejects client (h e)) -> never_rejects client (try_catch client m h).
Proof.
  intros Hh w e. unfold try_catch.
  destruct (m w) as [w' [a|e'|]]; simpl; try discriminate. apply Hh.
Qed.

Lemma list_folder_never_rejects (email : option string) (fuel : nat)
    (captured : option (list DriveFile)) :
  never_rejects client (list_folder client data email fuel captured).
Proof.
  assert (Hret : never_rejects client (ret client tt)) by (intros w e; discriminate).
  unfold list_folder. apply never_rejects_bind; [intros w e; discriminate|]. intros cf.
  destruct email as [[|c email]|]; try exact Hret.
  destruct cf as [cf|]; try exact Hret.
  apply never_rejects_bind; [intros w e; discriminate|]. intros _.
  apply never_rejects_bind; [|intros _ w e; discriminate].
  apply never_rejects_try_catch. intros _. exact Hret.
Qed.

(** What [add_files] does to the world. *)
Lemma add_files_run (cf : CurrentFolder) (results : ListObjectsV2Output)
    (Contents : list S3Object) (w : World client) :
  add_files client data cf results Contents w
  = (mkWorld (remote w) (sent w) (toasts w) (localStorage w) (currentFolder w) (folders w)
       (with_files (files w) (signed_files data cf results Contents)) (loading w),
     Fulfilled tt).
Proof.
  revert w. induction Contents as [|o os IH]; intros w; simpl.
  - destruct w; reflexivity.
  - unfold bind. destruct (getSignedUrl data (out_Name results) (obj_Key o)) as [url|]; simpl.
    + rewrite IH. simpl. f_equal. f_equal.
      destruct (files w) as [fs|]; simpl;
        destruct (signed_files data cf results os); simpl; rewrite <- ?app_assoc; reflexivity.
    + apply IH.
Qed.

Lemma append_folders_run (g : string -> DriveFolder) (Prefixes : list string)
    (w : World client) (shown : list DriveFolder) :
  folders w = Some shown ->
  for_each client
    (fun Prefix => setFolders client (option_map (fun folders => folders ++ [g Prefix])))
    Prefixes w
  = (mkWorld (remote w) (sent w) (toasts w) (localStorage w) (currentFolder w)
       (Some (shown ++ map g Prefixes)) (files w) (loading w),
     Fulfilled tt).
Proof.
  revert w shown. induction Prefixes as [|p ps IH]; intros w shown Hw; simpl.
  - rewrite app_nil_r, <- Hw. destruct w; reflexivity.
  - unfold bind. simpl. rewrite (IH _ (shown ++ [g p])) by (simpl; rewrite Hw; reflexivity).
    simpl. rewrite <- app_assoc. reflexivity.
Qed.

Lemma visit_end_spec (m : M client unit) (w : World client) :
  bind client (try_catch client m (fun _ => ret client tt))
    (fun _ => setLoading client false) w
  = visit_end client (m w).
Proof.
  unfold bind, try_catch, visit_end. destruct (m w) as [w' [[]|e|]]; reflexivity.
Qed.

Lemma list_folder_run (email : string) (fuel : nat) (w : World client)
    (cf : CurrentFolder) (r : Remote client) (results : ListObjectsV2Output) :
  email <> ""%string ->
  currentFolder w = Some cf ->
  listObjectsV2 client (remote w)
    (mkListInput (data_keys_Bucket data) (currentFolder_fullPath cf) (Some "/"%string) None)
  = (r, inr results) ->
  list_folder client data (Some email) fuel None w
  = visit_end client
      (list_more client data fuel cf results (first_page_world client data cf r results w)).
Proof.
  intros He Hcf Hlist. unfold list_folder.
  rewrite (bind_fulfilled _ _ _ w w (Some cf))
    by (unfold get_currentFolder; rewrite Hcf; reflexivity).
  destruct email as [|c email]; [contradiction|].
  set (w0 := mkWorld (remote w) (sent w) (toasts w) (localStorage w) (currentFolder w)
               (folders w) (files w) true).
  rewrite (bind_fulfilled _ _ _ w w0 tt) by reflexivity.
  rewrite visit_end_spec. f_equal.
  set (input := mkListInput (data_keys_Bucket data) (currentFolder_fullPath cf)
                  (Some "/"%string) None) in *.
  assert (Hsend : send_ListObjectsV2 client input w0
                  = (answered client r (ListObjectsV2Command input) w0, Fulfilled results)).
  { unfold send_ListObjectsV2. simpl. rewrite Hlist. reflexivity. }
  rewrite (bind_fulfilled _ _ _ _ _ _ Hsend).
  set (wa := answered client r (ListObjectsV2Command input) w0).
  set (wb := mkWorld r (sent w ++ [ListObjectsV2Command input]) (toasts w) (localStorage w)
               (currentFolder w) (folders w)
               (with_files (files w)
                  (signed_files data cf results (or_empty (out_Contents results))))
               true).
  assert (Hfirst :
    (match out_Contents results with
     | Some Contents => add_files client data cf results Contents
     | None => ret client tt
     end) wa = (wb, Fulfilled tt)).
  { destruct (out_Contents results) as [Contents|]; [apply add_files_run | reflexivity]. }
  rewrite (bind_fulfilled _ _ _ _ _ _ Hfirst).
  rewrite (bind_fulfilled _ _ _ wb wb (localStorage wb)) by reflexivity.
  set (wc := mkWorld r (sent w ++ [ListObjectsV2Command input]) (toasts w) (localStorage w)
               (currentFolder w)
               (Some (local_children cf results (or_empty (localStorage w))))
               (with_files (files w)
                  (signed_files data cf results (or_empty (out_Contents results))))
               true).
  rewrite (bind_fulfilled _ _ _ wb wc tt) by reflexivity.
  rewrite (bind_fulfilled _ _ _ wc (first_page_world client data cf r results w) tt)
    by (apply (append_folders_run _ _ wc _ eq_refl)).
  reflexivity.
Qed.

End MoreListFacts.

Lemma list_more_done (client : S3Client) (data : Drive) (fuel : nat) (cf : CurrentFolder)
    (results : ListObjectsV2Output) (w : World client) :
  out_IsTruncated results = false ->
  list_more client data fuel cf results w = (w, Fulfilled tt).
Proof. intros H. destruct fuel; simpl; rewrite H; reflexivity. Qed.

Lemma visit_end_loading (client : S3Client) (run : World client * Promise unit) :
  snd (visit_end client run) = Fulfilled tt -> loading (fst (visit_end client run)) = false.
Proof.
  destruct run as [w [[]|e|]]; unfold visit_end; simpl; intros H;
    [reflexivity | reflexivity | discriminate].
Qed.

(** X10.  A visit never rejects: whatever fails inside is swallowed.  When
    it has settled, [loading] is off again. *)
Theorem list_folder_swallows_errors :
  forall (client : S3Client) (data : Drive) (email : option string) (fuel : nat)
         (captured : option (list DriveFile)) (w : World client),
    let run := list_folder client data email fuel captured w in
    (forall e, snd run <> Rejected e) /\
    (forall address cf,
       email = Some address -> address <> ""%string -> currentFolder w = Some cf ->
       snd run = Fulfilled tt -> loading (fst run) = false).
Proof.
  intros client data email fuel captured w run. split.
  - intros e. apply list_folder_never_rejects.
  - intros address cf -> Ha Hcf. subst run. unfold list_folder.
    rewrite (bind_fulfilled _ _ _ w w (Some cf))
      by (unfold get_currentFolder; rewrite Hcf; reflexivity).
    destruct address as [|c address]; [contradiction|].
    rewrite (bind_fulfilled _ _ _ w _ tt) by reflexivity.
    rewrite visit_end_spec. apply visit_end_loading.
Qed.

(** X11.  Without a signed-in user or without a current folder a visit does
    nothing at all.  With files already loaded it sends no request and leaves
    files, folders and the index as they are. *)
Theorem list_folder_idle :
  forall (client : S3Client) (data : Drive) (email : option string) (fuel : nat)
         (captured : option (list DriveFile)) (w : World client),
    let run := list_folder client data email fuel captured w in
    (email = None \/ email = Some ""%string \/ currentFolder w = None ->
       run = (w, Fulfilled tt)) /\
    (captured <> None ->
       snd run = Fulfilled tt /\ sent (fst run) = sent w /\ files (fst run) = files w /\
       folders (fst run) = folders w /\ localStorage (fst run) = localStorage w).
Proof.
  intros client data email fuel captured w run. subst run. unfold list_folder. split.
  - intros H. unfold bind, get_currentFolder.
    destruct H as [->|[->|H]]; [destruct (currentFolder w); reflexivity.. |].
    rewrite H. destruct email as [[|c a]|]; reflexivity.
  - intros Hc. destruct captured as [fs|]; [|contradiction].
    unfold bind, get_currentFolder, try_catch.
    destruct email as [[|c a]|]; destruct (currentFolder w); simpl; auto.
Qed.

Lemma list_folder_idle_witness :
  list_folder memory drive None 3 None (world_with_index (client:=memory) shelf an_index docs)
  = (world_with_index (client:=memory) shelf an_index docs, Fulfilled tt) /\
  sent (fst (list_folder memory drive (Some "u@example.org"%string) 3 (Some [docs_a])
               (world_with_index (client:=memory) shelf an_index docs))) = [].
Proof.
  split.
  - apply (proj1 (list_folder_idle memory drive None 3 None
                    (world_with_index (client:=memory) shelf an_index docs))).
    left. reflexivity.
  - apply (proj2 (list_folder_idle memory drive (Some "u@example.org"%string) 3
                    (Some [docs_a])
                    (world_with_index (client:=memory) shelf an_index docs))).
    discriminate.
Defined.

(** X12.  When the first listing request fails, the visit still completes:
    one command was sent, files and folders are what they were before (null
    after a navigation), nothing is shown to the user and [loading] is off. *)
Theorem list_folder_failed_listing :
  forall (client : S3Client) (data : Drive) (email : string) (fuel : nat)
         (w : World client) (cf : CurrentFolder) (r : Remote client) (e : Error),
    email <> ""%string ->
    currentFolder w = Some cf ->
    listObjectsV2 client (remote w)
      (mkListInput (data_keys_Bucket data) (currentFolder_fullPath cf) (Some "/"%string) None)
    = (r, inl e) ->
    list_folder client data (Some email) fuel None w
    = (mkWorld r
         (sent w ++ [ListObjectsV2Command
                       (mkListInput (data_keys_Bucket data) (currentFolder_fullPath cf)
                          (Some "/"%string) None)])
         (toasts w) (localStorage w) (currentFolder w) (folders w) (files w) false,
       Fulfilled tt).
Proof.
  intros client data email fuel w cf r e He Hcf Hlist. unfold list_folder.
  rewrite (bind_fulfilled _ _ _ w w (Some cf))
    by (unfold get_currentFolder; rewrite Hcf; reflexivity).
  destruct email as [|c email]; [contradiction|].
  rewrite (bind_fulfilled _ _ _ w _ tt) by reflexivity.
  rewrite visit_end_spec. unfold bind at 1, send_ListObjectsV2. simpl. rewrite Hlist.
  reflexivity.
Qed.

Lemma list_folder_failed_listing_witness :
  list_folder memory drive (Some "u@example.org"%string) 3 None
    (world_with_index (client:=memory) shelf an_index docs)
  = (mkWorld (client:=memory) shelf
       [ListObjectsV2Command (mkListInput "bucket" "docs/" (Some "/"%string) None)]
       [] (Some an_index) (Some docs) None None false,
     Fulfilled tt).
Proof.
  apply (list_folder_failed_listing memory drive "u@example.org" 3
           (world_with_index (client:=memory) shelf an_index docs) docs shelf
           (ServiceException "NotImplemented"));
    [discriminate | reflexivity | reflexivity].
Defined.

(** X13.  When the listing fits one page (the first page is not truncated),
    the visit completes after that single request, whatever the bound on
    further pages: one command has been sent, the folders are the local
    children followed by one per common prefix, the persisted index is as it
    was and [loading] is off. *)
Theorem list_folder_single_page :
  forall (client : S3Client) (data : Drive) (email : string) (fuel : nat)
         (w : World client) (cf : CurrentFolder) (r : Remote client)
         (results : ListObjectsV2Output),
    email <> ""%string ->
    currentFolder w = Some cf ->
    listObjectsV2 client (remote w)
      (mkListInput (data_keys_Bucket data) (currentFolder_fullPath cf) (Some "/"%string) None)
    = (r, inr results) ->
    out_IsTruncated results = false ->
    let run := list_folder client data (Some email) fuel None w in
    snd run = Fulfilled tt /\
    sent (fst run)
    = sent w ++ [ListObjectsV2Command
                   (mkListInput (data_keys_Bucket data) (currentFolder_fullPath cf)
                      (Some "/"%string) None)] /\
    remote (fst run) = r /\
    folders (fst run)
    = Some (local_children cf results (or_empty (localStorage w)) ++
            map (driveFolder_of data cf results) (or_empty (out_CommonPrefixes results))) /\
    localStorage (fst run) = localStorage w /\
    toasts (fst run) = toasts w /\
    loading (fst run) = false.
Proof.
  intros client data email fuel w cf r results He Hcf Hlist Ht run. subst run.
  rewrite (list_folder_run client data email fuel w cf r results He Hcf Hlist).
  rewrite (list_more_done _ _ _ _ _ _ Ht). unfold visit_end. simpl.
  repeat split.
Qed.

Import MoreFixtures.

Lemma list_folder_swallows_errors_witness :
  loading (fst (list_folder (pagedClient docs_single) drive (Some "u@example.org"%string) 0
                  None (at_docs (client:=pagedClient docs_single) tt))) = false.
Proof.
  apply (proj2 (list_folder_swallows_errors (pagedClient docs_single) drive
                  (Some "u@example.org"%string) 0 None
                  (at_docs (client:=pagedClient docs_single) tt))
           "u@example.org"%string docs eq_refl);
    [discriminate | reflexivity | reflexivity].
Defined.

Lemma list_folder_single_page_witness :
  let run := list_folder (pagedClient docs_single) drive (Some "u@example.org"%string) 5
               None (at_docs (client:=pagedClient docs_single) tt) in
  snd run = Fulfilled tt /\
  sent (fst run) = [ListObjectsV2Command (mkListInput "bucket" "docs/" (Some "/"%string) None)] /\
  loading (fst run) = false.
Proof.
  intros run.
  destruct (list_folder_single_page (pagedClient docs_single) drive "u@example.org" 5
              (at_docs (client:=pagedClient docs_single) tt) docs tt
              (snd (hd (None, mkListOutput None None false "" None None) docs_single)))
    as [H1 [H2 [_ [_ [_ [_ H7]]]]]]; try reflexivity; try discriminate.
  split; [exact H1|]. split; [exact H2 | exact H7].
Defined.

(** X14.  A folder without objects never gets an empty file list: when the
    page has no contents (undefined or an empty array) and is not truncated,
    the visit completes with [files] still null, although [folders] is set. *)
Theorem list_folder_empty_folder_leaves_files_null :
  forall (client : S3Client) (data : Drive) (email : string) (fuel : nat)
         (w : World client) (cf : CurrentFolder) (r : Remote client)
         (results : ListObjectsV2Output),
    email <> ""%string ->
    currentFolder w = Some cf ->
    files w = None ->
    listObjectsV2 client (remote w)
      (mkListInput (data_keys_Bucket data) (currentFolder_fullPath cf) (Some "/"%string) None)
    = (r, inr results) ->
    out_IsTruncated results = false ->
    or_empty (out_Contents results) = [] ->
    let run := list_folder client data (Some email) fuel None w in
    snd run = Fulfilled tt /\ files (fst run) = None /\ folders (fst run) <> None.
Proof.
  intros client data email fuel w cf r results He Hcf Hf Hlist Ht Hc run. subst run.
  rewrite (list_folder_run client data email fuel w cf r results He Hcf Hlist).
  rewrite (list_more_done _ _ _ _ _ _ Ht). unfold visit_end. simpl.
  rewrite Hc, Hf. simpl. repeat split. discriminate.
Qed.

Lemma list_folder_empty_folder_leaves_files_null_witness :
  let run := list_folder (pagedClient nothing_listed) drive (Some "u@example.org"%string) 0
               None (at_docs (client:=pagedClient nothing_listed) tt) in
  files (fst run) = None /\
  option_map (map folder_fullPath) (folders (fst run)) = Some ["docs/reports/"%string].
Proof.
  intros run.
  destruct (list_folder_empty_folder_leaves_files_null (pagedClient nothing_listed) drive
              "u@example.org" 0 (at_docs (client:=pagedClient nothing_listed) tt) docs tt
              (mkListOutput None None false "bucket" None None))
    as [_ [H _]]; try reflexivity; try discriminate.
  split; [exact H | reflexivity].
Defined.

(** X15.  Every folder a visit shows, from the index or from the remote
    page, has the visited folder's path as its parent. *)
Theorem list_folder_folders_have_parent :
  forall (client : S3Client) (data : Drive) (email : string) (fuel : nat)
         (w : World client) (cf : CurrentFolder) (r : Remote client)
         (results : ListObjectsV2Output) (shown : list DriveFolder),
    email <> ""%string ->
    currentFolder w = Some cf ->
    listObjectsV2 client (remote w)
      (mkListInput (data_keys_Bucket data) (currentFolder_fullPath cf) (Some "/"%string) None)
    = (r, inr results) ->
    folders (fst (list_folder client data (Some email) fuel None w)) = Some shown ->
    forall f, In f shown -> folder_parent f = currentFolder_fullPath cf.
Proof.
  intros client data email fuel w cf r results shown He Hcf Hlist Hshown f Hin.
  rewrite (list_folder_folders client data email fuel w cf r results He Hcf Hlist) in Hshown.
  inversion Hshown. subst shown. apply in_app_or in Hin as [Hin|Hin].
  - unfold local_children in Hin. apply filter_In in Hin as [_ Hin].
    apply andb_true_iff in Hin as [Hin _]. apply String.eqb_eq. exact Hin.
  - apply in_map_iff in Hin as [p [<- _]]. reflexivity.
Qed.

Lemma list_folder_folders_have_parent_witness :
  folder_parent (a_folder "docs/reports/" "docs/") = "docs/"%string /\
  folder_parent (driveFolder_of drive docs docs_page1 "docs/zips/") = "docs/"%string.
Proof.
  assert (H : forall f,
            In f [a_folder "docs/reports/" "docs/";
                  driveFolder_of drive docs docs_page1 "docs/zips/"] ->
            folder_parent f = "docs/"%string).
  { apply (list_folder_folders_have_parent
             (pagedClient [(None, mkListOutput None (Some ["docs/zips/"%string]) false "bucket"
                                    None None)])
             drive "u@example.org" 0
             (at_docs (client:=pagedClient [(None, mkListOutput None
                                                     (Some ["docs/zips/"%string])
                                                     false "bucket" None None)]) tt)
             docs tt (mkListOutput None (Some ["docs/zips/"%string]) false "bucket" None None));
      try reflexivity; discriminate. }
  split; apply H; simpl; auto.
Defined.

(* ------------------------------------------------------------------ *)
(** ** Navigation and folder names *)

Lemma slice_0_m1_snoc (s : string) (c : ascii) : slice_0_m1 (s ++ String c "") = s.
Proof.
  induction s as [|d s IH]; simpl; [reflexivity|].
  destruct (s ++ String c "")%string eqn:E; [destruct s; discriminate|].
  rewrite <- IH. reflexivity.
Qed.

Lemma shift_split_first (first rest : string) :
  contains_char "/" first = false ->
  (rest = ""%string \/ exists t, rest = String "/" t) ->
  shift (split "/" (first ++ rest)) = first.
Proof.
  intros Hf [->|[t ->]]; unfold shift.
  - rewrite append_nil_r, (split_no_sep _ _ Hf). reflexivity.
  - rewrite split_app, (split_no_sep _ _ Hf). reflexivity.
Qed.

Lemma navigate_run (client : S3Client) (data : Drive) (email path : string)
    (w : World client) :
  email <> ""%string ->
  path <> ""%string ->
  navigate client data (Some email) (Some path) w
  = (mkWorld (remote w) (sent w) (toasts w) (localStorage w)
       (Some (NamedFolder
                (mkDriveFolder (pop (split "/" path)) (path ++ "/")
                   (shift (split "/" path) ++ "/") None
                   (data_keys_Bucket data) (data_keys_bucketUrl data))))
       None None (loading w),
     Fulfilled tt).
Proof.
  intros He Hp. destruct email as [|c email]; [contradiction|].
  destruct path as [|d path]; [contradiction|]. reflexivity.
Qed.

(** X16.  Navigating to a path (a user being signed in) clears files and
    folders and makes the current folder the one with full path [path/];
    its name is the last segment of the path and its parent is the first
    segment followed by a slash: for a top-level folder the parent is the
    folder's own path, for [a/b/c] it is [a/]. *)
Theorem navigate_sets_folder :
  forall (client : S3Client) (data : Drive) (email path : string) (w : World client),
    email <> ""%string ->
    path <> ""%string ->
    let w' := fst (navigate client data (Some email) (Some path) w) in
    files w' = None /\ folders w' = None /\
    exists f,
      currentFolder w' = Some (NamedFolder f) /\
      folder_fullPath f = (path ++ "/")%string /\
      (forall q leaf,
         path = (q ++ leaf)%string ->
         q = ""%string \/ endsWithChar "/" q = true ->
         contains_char "/" leaf = false ->
         folder_name f = leaf) /\
      (forall first rest,
         path = (first ++ rest)%string ->
         contains_char "/" first = false ->
         rest = ""%string \/ (exists t, rest = String "/" t) ->
         folder_parent f = (first ++ "/")%string).
Proof.
  intros client data email path w He Hp w'. subst w'.
  rewrite (navigate_run client data email path w He Hp). simpl.
  repeat split. eexists. split; [reflexivity|]. simpl.
  split; [reflexivity|]. split.
  - intros q leaf E Hq Hl. rewrite E. apply pop_split_prefix; assumption.
  - intros first rest E Hf Hr. rewrite E. f_equal. apply shift_split_first; assumption.
Qed.

Lemma navigate_sets_folder_witness :
  exists f,
    currentFolder (fst (navigate memory drive (Some "u@example.org"%string)
                          (Some "a/b/c"%string) (world (client:=memory) shelf)))
    = Some (NamedFolder f) /\
    folder_fullPath f = "a/b/c/"%string /\ folder_name f = "c"%string /\
    folder_parent f = "a/"%string.
Proof.
  destruct (navigate_sets_folder memory drive "u@example.org" "a/b/c"
              (world (client:=memory) shelf))
    as [_ [_ [f [Hf [Hpath [Hname Hparent]]]]]]; [discriminate | discriminate |].
  exists f. split; [exact Hf|]. split; [exact Hpath|]. split.
  - apply (Hname "a/b/"%string "c"%string); [reflexivity | right; reflexivity | reflexivity].
  - apply (Hparent "a"%string "/b/c"%string); [reflexivity | reflexivity |].
    right. exists "b/c"%string. reflexivity.
Defined.

(** X17.  The folder a listing shows for the common prefix [path/] has the
    same name and the same full path as the current folder after navigating
    to [path]. *)
Theorem listed_folder_agrees_with_navigation :
  forall (client : S3Client) (data : Drive) (email path : string) (w : World client)
         (cf : CurrentFolder) (results : ListObjectsV2Output),
    email <> ""%string ->
    path <> ""%string ->
    exists f,
      currentFolder (fst (navigate client data (Some email) (Some path) w))
      = Some (NamedFolder f) /\
      folder_name (driveFolder_of data cf results (path ++ "/")) = folder_name f /\
      folder_fullPath (driveFolder_of data cf results (path ++ "/")) = folder_fullPath f.
Proof.
  intros client data email path w cf results He Hp.
  rewrite (navigate_run client data email path w He Hp).
  eexists. split; [reflexivity|]. simpl.
  split; [|reflexivity].
  rewrite (slice_0_m1_snoc path "/"). reflexivity.
Qed.

Lemma listed_folder_agrees_with_navigation_witness :
  exists f,
    currentFolder (fst (navigate memory drive (Some "u@example.org"%string)
                          (Some "docs/reports"%string) (world (client:=memory) shelf)))
    = Some (NamedFolder f) /\
    folder_name (driveFolder_of drive docs docs_page1 "docs/reports/") = folder_name f /\
    folder_fullPath (driveFolder_of drive docs docs_page1 "docs/reports/") = folder_fullPath f.
Proof.
  apply (listed_folder_agrees_with_navigation memory drive "u@example.org" "docs/reports"
           (world (client:=memory) shelf) docs docs_page1);
    discriminate.
Defined.

(* ------------------------------------------------------------------ *)
(** ** Adding and removing folders *)

Lemma addFolder_run (client : S3Client) (data : Drive) (now name : string)
    (w : World client) (cf : CurrentFolder) :
  currentFolder w = Some cf ->
  addFolder client data now name w =
  match folder_prefix data cf with
  | inl e => (w, Rejected e)
  | inr path =>
      (mkWorld (remote w) (sent w) (toasts w)
         (Some (or_empty (localStorage w) ++ [added_folder data now name cf path]))
         (currentFolder w)
         (option_map (fun shown => shown ++ [added_folder data now name cf path]) (folders w))
         (files w) (loading w),
       Fulfilled tt)
  end.
Proof.
  intros Hcf. unfold addFolder, folder_prefix.
  rewrite (bind_fulfilled _ _ _ w w (Some cf))
    by (unfold get_currentFolder; rewrite Hcf; reflexivity).
  unfold bind at 1.
  destruct (String.eqb (currentFolder_fullPath cf) "") eqn:E; simpl.
  - reflexivity.
  - destruct (decodeURIComponent data (currentFolder_fullPath cf)) as [e|path];
      reflexivity.
Qed.

Lemma removeFolder_local (client : S3Client) (fuel : nat) (folder : DriveFolder)
    (w : World client) :
  folders (fst (removeFolder client fuel folder w))
  = option_map
      (filter (fun f => negb (String.eqb (folder_fullPath f) (folder_fullPath folder))))
      (folders w) /\
  localStorage (fst (removeFolder client fuel folder w))
  = option_map (prune_index folder) (localStorage w).
Proof.
  unfold removeFolder, bind, setFolders, localStorage_getItem. simpl.
  destruct (localStorage w) as [index|] eqn:L; simpl.
  - rewrite (preserves_emptyS3Directory client (@folders client)) by (intros ? ? ?; reflexivity).
    rewrite (preserves_emptyS3Directory client (@localStorage client))
      by (intros ? ? ?; reflexivity).
    auto.
  - rewrite (preserves_emptyS3Directory client (@folders client)) by (intros ? ? ?; reflexivity).
    rewrite (preserves_emptyS3Directory client (@localStorage client))
      by (intros ? ? ?; reflexivity).
    simpl. auto.
Qed.

Lemma removeFolder_run (client : S3Client) (fuel : nat) (folder : DriveFolder)
    (w : World client) :
  removeFolder client fuel folder w
  = emptyS3Directory client fuel (folder_bucketName folder) (folder_fullPath folder)
      (mkWorld (remote w) (sent w) (toasts w)
         (option_map (prune_index folder) (localStorage w)) (currentFolder w)
         (option_map
            (filter (fun f => negb (String.eqb (folder_fullPath f) (folder_fullPath folder))))
            (folders w))
         (files w) (loading w)).
Proof.
  unfold removeFolder, bind, setFolders, localStorage_getItem. simpl.
  destruct (localStorage w); reflexivity.
Qed.

Lemma emptyS3Directory_undefined (client : S3Client) (fuel : nat) (Bucket Prefix : string)
    (w : World client) (r : Remote client) (page : ListObjectsV2Output) :
  listObjectsV2 client (remote w) (mkListInput Bucket Prefix None None) = (r, inr page) ->
  or_empty (out_CommonPrefixes page) = [] ->
  out_Contents page = None ->
  emptyS3Directory client (S fuel) Bucket Prefix w
  = (answered client r (ListObjectsV2Command (mkListInput Bucket Prefix None None)) w,
     Rejected (TypeError "Cannot read properties of undefined (reading 'length')")).
Proof.
  intros Hlist Hp Hc. rewrite emptyS3Directory_S.
  unfold bind, send_ListObjectsV2. rewrite Hlist. simpl. rewrite Hp. simpl.
  unfold delete_page. rewrite Hc. reflexivity.
Qed.

Lemma includes_refl (s : string) : includes s s = true.
Proof.
  apply includes_spec. exists ""%string, ""%string. simpl. rewrite append_nil_r. reflexivity.
Qed.

Lemma prune_index_app (folder : DriveFolder) (a b : list DriveFolder) :
  prune_index folder (a ++ b) = prune_index folder a ++ prune_index folder b.
Proof. apply filter_app. Qed.

Lemma prune_index_untouched (folder : DriveFolder) (index : list DriveFolder) :
  (forall f, In f index -> includes (folder_fullPath f) (folder_fullPath folder) = false) ->
  prune_index folder index = index.
Proof.
  unfold prune_index. induction index as [|f index IH]; simpl; intros H; [reflexivity|].
  rewrite (H f) by auto. simpl. f_equal. apply IH. auto.
Qed.

(** X18.  [addFolder] works on the view and the index only: it sends no
    command and leaves the store alone.  It appends the new folder, whose
    full path is the decoded path of the current folder followed by the name
    and a slash and whose parent is the current folder's path as it is, to
    the persisted index (which it creates when there is none) and to the
    folders shown.  When decoding the current path throws, nothing has been
    changed. *)
Theorem addFolder_is_local :
  forall (client : S3Client) (data : Drive) (now name : string) (w : World client)
         (cf : CurrentFolder),
    currentFolder w = Some cf ->
    let run := addFolder client data now name w in
    (forall e, folder_prefix data cf = inl e -> run = (w, Rejected e)) /\
    (forall path,
       folder_prefix data cf = inr path ->
       let newFolder :=
         mkDriveFolder name (path ++ name ++ "/") (currentFolder_fullPath cf) (Some now)
           (data_keys_Bucket data) (data_keys_bucketUrl data) in
       snd run = Fulfilled tt /\
       localStorage (fst run) = Some (or_empty (localStorage w) ++ [newFolder]) /\
       (forall shown, folders w = Some shown ->
                      folders (fst run) = Some (shown ++ [newFolder])) /\
       sent (fst run) = sent w /\ remote (fst run) = remote w /\ files (fst run) = files w).
Proof.
  intros client data now name w cf Hcf run. subst run.
  rewrite (addFolder_run client data now name w cf Hcf). split.
  - intros e ->. reflexivity.
  - intros path ->. simpl. repeat split. intros shown ->. reflexivity.
Qed.

Lemma addFolder_is_local_witness :
  let run := addFolder memory drive "2024-05-01T10:00:00.000Z" "drafts"
               (mkWorld (client:=memory) shelf [] [] None (Some docs) (Some []) None false) in
  localStorage (fst run)
  = Some [mkDriveFolder "drafts" "docs/drafts/" "docs/" (Some "2024-05-01T10:00:00.000Z"%string)
            "bucket" "https://bucket.s3.us-east-1.amazonaws.com"] /\
  sent (fst run) = [].
Proof.
  intros run.
  destruct (proj2 (addFolder_is_local memory drive "2024-05-01T10:00:00.000Z" "drafts"
                     (mkWorld (client:=memory) shelf [] [] None (Some docs) (Some []) None
                        false)
                     docs eq_refl) "docs/"%string eq_refl)
    as [_ [H1 [_ [H2 _]]]].
  split; [exact H1 | exact H2].
Defined.

(** X19.  A folder added with [addFolder] is shown at the next visit of the
    same folder whose listing succeeds: from the index, or, once the store
    lists its path as a common prefix, from the remote page. *)
Theorem addFolder_then_visit_shows_folder :
  forall (client : S3Client) (data : Drive) (now name email path : string) (fuel : nat)
         (w : World client) (cf : CurrentFolder) (r : Remote client)
         (results : ListObjectsV2Output),
    currentFolder w = Some cf ->
    folder_prefix data cf = inr path ->
    email <> ""%string ->
    listObjectsV2 client (remote w)
      (mkListInput (data_keys_Bucket data) (currentFolder_fullPath cf) (Some "/"%string) None)
    = (r, inr results) ->
    let w1 := fst (addFolder client data now name w) in
    exists shown f,
      folders (fst (list_folder client data (Some email) fuel None w1)) = Some shown /\
      In f shown /\ folder_fullPath f = (path ++ name ++ "/")%string.
Proof.
  intros client data now name email path fuel w cf r results Hcf Hp He Hlist w1.
  subst w1. rewrite (addFolder_run client data now name w cf Hcf), Hp. simpl fst.
  eexists. 
  destruct (existsb (fun prefix => String.eqb prefix (path ++ name ++ "/"))
              (or_empty (out_CommonPrefixes results))) eqn:E.
  - apply existsb_exists in E as [p [Hin Hp']]. apply String.eqb_eq in Hp'. subst p.
    exists (driveFolder_of data cf results (path ++ name ++ "/")). split.
    + apply (list_folder_folders client data email fuel _ cf r results He); [exact Hcf|].
      exact Hlist.
    + split; [|reflexivity]. apply in_or_app. right. apply in_map. exact Hin.
  - exists (added_folder data now name cf path). split.
    + apply (list_folder_folders client data email fuel _ cf r results He); [exact Hcf|].
      exact Hlist.
    + split; [|reflexivity]. apply in_or_app. left. simpl.
      unfold local_children. apply filter_In. split.
      * apply in_or_app. right. simpl. auto.
      * simpl. rewrite String.eqb_refl. simpl. rewrite E. reflexivity.
Qed.

Lemma addFolder_then_visit_shows_folder_witness :
  let w := mkWorld (client:=pagedClient docs_single) tt [] [] None (Some docs) (Some []) None
             false in
  let w1 := fst (addFolder (pagedClient docs_single) drive "2024-05-01T10:00:00.000Z"
                   "drafts" w) in
  exists shown f,
    folders (fst (list_folder (pagedClient docs_single) drive (Some "u@example.org"%string)
                    0 None w1)) = Some shown /\
    In f shown /\ folder_fullPath f = "docs/drafts/"%string.
Proof.
  intros w w1.
  apply (addFolder_then_visit_shows_folder (pagedClient docs_single) drive
           "2024-05-01T10:00:00.000Z" "drafts" "u@example.org" "docs/" 0 w docs tt
           (snd (hd (None, mkListOutput None None false "" None None) docs_single)));
    try reflexivity; discriminate.
Defined.

(** X20.  After [addFolder] and then [removeFolder] of the folder added, the
    persisted index is the earlier one pruned of the entries whose path
    contains the new folder's path; when no earlier entry does, the index is
    back to what it was (an empty array if there was none). *)
Theorem addFolder_then_removeFolder_index :
  forall (client : S3Client) (data : Drive) (now name path : string) (fuel : nat)
         (w : World client) (cf : CurrentFolder),
    currentFolder w = Some cf ->
    folder_prefix data cf = inr path ->
    let newFolder :=
      mkDriveFolder name (path ++ name ++ "/") (currentFolder_fullPath cf) (Some now)
        (data_keys_Bucket data) (data_keys_bucketUrl data) in
    let w2 := fst (removeFolder client fuel newFolder
                     (fst (addFolder client data now name w))) in
    localStorage w2 = Some (prune_index newFolder (or_empty (localStorage w))) /\
    ((forall f, In f (or_empty (localStorage w)) ->
                includes (folder_fullPath f) (path ++ name ++ "/") = false) ->
     localStorage w2 = Some (or_empty (localStorage w))).
Proof.
  intros client data now name path fuel w cf Hcf Hp newFolder w2.
  assert (H : localStorage w2 = Some (prune_index newFolder (or_empty (localStorage w)))).
  { subst w2. rewrite (proj2 (removeFolder_local client fuel newFolder _)).
    rewrite (addFolder_run client data now name w cf Hcf), Hp. simpl.
    rewrite prune_index_app. fold newFolder. unfold added_folder. fold newFolder.
    unfold prune_index at 2. simpl. rewrite (includes_refl (path ++ name ++ "/")). simpl.
    rewrite app_nil_r. reflexivity. }
  split; [exact H|].
  intros Hnone. rewrite H. f_equal. apply prune_index_untouched. exact Hnone.
Qed.

Lemma addFolder_then_removeFolder_index_witness :
  let w := mkWorld (client:=memory) shelf [] [] (Some [a_folder "music/" ""]) (Some docs)
             (Some []) None false in
  localStorage (fst (removeFolder memory 3
                       (mkDriveFolder "drafts" "docs/drafts/" "docs/"
                          (Some "2024-05-01T10:00:00.000Z"%string) "bucket"
                          "https://bucket.s3.us-east-1.amazonaws.com")
                       (fst (addFolder memory drive "2024-05-01T10:00:00.000Z" "drafts" w))))
  = Some [a_folder "music/" ""].
Proof.
  intros w.
  apply (proj2 (addFolder_then_removeFolder_index memory drive "2024-05-01T10:00:00.000Z"
                  "drafts" "docs/" 3 w docs eq_refl eq_refl)).
  intros f [<-|[]]. reflexivity.
Defined.

(** X21.  [removeFolder] changes the view and the index before it turns to
    the store, and whatever the store does then (also when the delete is
    rejected or has not finished): the view loses the folders with exactly
    that path, the index is pruned by containment, and no index is created
    when there was none.  A shown folder with another path stays shown, even
    when its path contains the removed one. *)
Theorem removeFolder_updates_view_and_index_first :
  forall (client : S3Client) (fuel : nat) (folder : DriveFolder) (w : World client),
    let run := removeFolder client fuel folder w in
    (forall shown,
       folders w = Some shown ->
       folders (fst run)
       = Some (filter (fun f => negb (String.eqb (folder_fullPath f) (folder_fullPath folder)))
                 shown)) /\
    localStorage (fst run) = option_map (prune_index folder) (localStorage w) /\
    (forall shown f,
       folders w = Some shown -> In f shown ->
       folder_fullPath f <> folder_fullPath folder ->
       exists shown', folders (fst run) = Some shown' /\ In f shown').
Proof.
  intros client fuel folder w run. subst run.
  destruct (removeFolder_local client fuel folder w) as [Hf Hl].
  split; [intros shown Hs; rewrite Hf, Hs; reflexivity|]. split; [exact Hl|].
  intros shown f Hs Hin Hne. rewrite Hf, Hs. simpl. eexists. split; [reflexivity|].
  apply filter_In. split; [exact Hin|].
  apply negb_true_iff, String.eqb_neq. exact Hne.
Qed.

Lemma removeFolder_updates_view_and_index_first_witness :
  let w := mkWorld (client:=memoryClient 2 false) shelf [] [] (Some an_index) (Some ROOT_FOLDER)
             (Some an_index) None false in
  exists shown',
    folders (fst (removeFolder (memoryClient 2 false) 3 (a_folder "docs/" "") w))
    = Some shown' /\
    In (a_folder "my-docs/x/" "my-docs/") shown'.
Proof.
  intros w.
  apply (proj2 (proj2 (removeFolder_updates_view_and_index_first (memoryClient 2 false) 3
                         (a_folder "docs/" "") w)) an_index);
    [reflexivity | simpl; auto | discriminate].
Defined.

(** X22.  Removing a folder that has nothing in the store, against a store
    that leaves [Contents] undefined on a page without keys: the view and the
    index are updated, one listing is sent, and the call is rejected with a
    TypeError. *)
Theorem removeFolder_without_objects_rejects :
  forall (client : S3Client) (fuel : nat) (folder : DriveFolder) (w : World client)
         (r : Remote client) (page : ListObjectsV2Output),
    listObjectsV2 client (remote w)
      (mkListInput (folder_bucketName folder) (folder_fullPath folder) None None)
    = (r, inr page) ->
    or_empty (out_CommonPrefixes page) = [] ->
    out_Contents page = None ->
    let run := removeFolder client (S fuel) folder w in
    snd run = Rejected (TypeError "Cannot read properties of undefined (reading 'length')") /\
    sent (fst run)
    = sent w ++ [ListObjectsV2Command
                   (mkListInput (folder_bucketName folder) (folder_fullPath folder) None None)] /\
    localStorage (fst run) = option_map (prune_index folder) (localStorage w).
Proof.
  intros client fuel folder w r page Hlist Hp Hc run. subst run.
  split; [|split; [|apply removeFolder_local]];
    rewrite removeFolder_run;
    (erewrite emptyS3Directory_undefined; [reflexivity | exact Hlist | exact Hp | exact Hc]).
Qed.

Lemma removeFolder_without_objects_rejects_witness :
  let w := mkWorld (client:=memoryClient 2 false) shelf [] [] (Some an_index) (Some ROOT_FOLDER)
             (Some an_index) None false in
  let run := removeFolder (memoryClient 2 false) 1 (a_folder "docs/" "") w in
  snd run = Rejected (TypeError "Cannot read properties of undefined (reading 'length')") /\
  localStorage (fst run) = Some [a_folder "music/" ""].
Proof.
  intros w run.
  destruct (removeFolder_without_objects_rejects (memoryClient 2 false) 0
              (a_folder "docs/" "") w shelf (mkListOutput None None false "bucket" None None))
    as [H1 [_ H3]]; try reflexivity.
  split; [exact H1 | exact H3].
Defined.

(* ------------------------------------------------------------------ *)
(** ** The commands of a recursive delete *)

Section DeleteCommands.

Variable client : S3Client.
Variable ok : Command -> Prop.

Lemma sends_only_still {A} (m : M client A) :
  (forall w, sent (fst (m w)) = sent w) -> sends_only client ok m.
Proof. intros H w. exists []. rewrite app_nil_r. split; [apply H | constructor]. Qed.

Lemma sends_only_bind {A B} (m : M client A) (k : A -> M client B) :
  sends_only client ok m -> (forall a, sends_only client ok (k a)) ->
  sends_only client ok (bind client m k).
Proof.
  intros Hm Hk w. unfold bind. destruct (Hm w) as [c1 [E1 F1]].
  destruct (m w) as [w1 [a|e|]]; simpl in *; try solve [exists c1; auto].
  destruct (Hk a w1) as [c2 [E2 F2]]. exists (c1 ++ c2). split.
  - rewrite E2, E1, app_assoc. reflexivity.
  - apply Forall_app. auto.
Qed.

Lemma sends_only_for_each {A} (body : A -> M client unit) (l : list A) :
  (forall x, sends_only client ok (body x)) -> sends_only client ok (for_each client body l).
Proof.
  intros Hb. induction l as [|x l IH]; simpl.
  - apply sends_only_still. reflexivity.
  - apply sends_only_bind; [apply Hb | intros _; exact IH].
Qed.

Lemma sends_only_ListObjectsV2 (input : ListObjectsV2Input) :
  ok (ListObjectsV2Command input) -> sends_only client ok (send_ListObjectsV2 client input).
Proof.
  intros H w. exists [ListObjectsV2Command input]. unfold send_ListObjectsV2.
  destruct (listObjectsV2 client (remote w) input). simpl. auto.
Qed.

Lemma sends_only_DeleteObjects (B : string) (Objects : list string) :
  ok (DeleteObjectsCommand B Objects) ->
  sends_only client ok (send_DeleteObjects client B Objects).
Proof.
  intros H w. exists [DeleteObjectsCommand B Objects]. unfold send_DeleteObjects.
  destruct (deleteObjects client (remote w) B Objects). simpl. auto.
Qed.

End DeleteCommands.

Lemma emptyS3Directory_sends_only (client : S3Client) (fuel : nat) (Bucket Prefix : string) :
  sends_only client (delete_command Bucket) (emptyS3Directory client fuel Bucket Prefix).
Proof.
  revert Prefix. induction fuel as [|fuel IH]; intros Prefix.
  - apply sends_only_still. reflexivity.
  - rewrite emptyS3Directory_S.
    apply sends_only_bind; [apply sends_only_ListObjectsV2; simpl; auto|]. intros page.
    apply sends_only_bind; [apply sends_only_for_each; exact IH|]. intros _.
    unfold delete_page. destruct (out_Contents page) as [[|o os]|].
    + apply sends_only_still. reflexivity.
    + apply sends_only_bind.
      * apply sends_only_DeleteObjects. simpl. split; [reflexivity | discriminate].
      * intros _. destruct (out_IsTruncated page); [apply IH|].
        apply sends_only_still. reflexivity.
    + apply sends_only_still. reflexivity.
Qed.

(** X23.  Whatever the store answers and however far it gets, a recursive
    delete only adds commands to those sent, and each is either a listing of
    the given bucket without delimiter and without continuation token or a
    DeleteObjects request on the given bucket with at least one key; it sends
    no tagging command. *)
Theorem emptyS3Directory_commands :
  forall (client : S3Client) (fuel : nat) (Bucket Prefix : string) (w : World client),
    exists cmds,
      sent (fst (emptyS3Directory client fuel Bucket Prefix w)) = sent w ++ cmds /\
      forall c, In c cmds ->
        match c with
        | ListObjectsV2Command input =>
            in_Bucket input = Bucket /\ in_Delimiter input = None /\
            in_ContinuationToken input = None
        | DeleteObjectsCommand B Objects => B = Bucket /\ Objects <> []
        | GetObjectTaggingCommand _ _ => False
        | PutObjectTaggingCommand _ _ _ => False
        end.
Proof.
  intros client fuel Bucket Prefix w.
  destruct (emptyS3Directory_sends_only client fuel Bucket Prefix w) as [cmds [E F]].
  exists cmds. split; [exact E|]. intros c Hin.
  rewrite Forall_forall in F. exact (F c Hin).
Qed.

(* ------------------------------------------------------------------ *)
(** ** A recursive delete against the in-memory bucket *)

Section MemoryDelete.

Variable maxKeys : nat.
Variable Bkt : string.
Variable P : string.

Local Abbreviation under := (fun o : string * list S3Tag => String.prefix P (fst o)).
Local Abbreviation store := (memoryClient maxKeys true).

Lemma firstn_In {A} (x : A) (n : nat) (l : list A) : In x (firstn n l) -> In x l.
Proof.
  intros H. rewrite <- (firstn_skipn n l). apply in_or_app. left. exact H.
Qed.

Lemma filter_negb_all {A} (p : A -> bool) (l : list A) :
  filter p l = [] -> filter (fun x => negb (p x)) l = l.
Proof.
  induction l as [|x l IH]; simpl; [reflexivity|].
  destruct (p x); simpl; [discriminate|]. intros H. f_equal. auto.
Qed.

Lemma filter_filter_length {A} (p q : A -> bool) (l : list A) (x : A) :
  In x l -> p x = true -> q x = false ->
  length (filter p (filter q l)) < length (filter p l).
Proof.
  induction l as [|y l IH]; simpl; intros Hin Hp Hq; [contradiction|].
  assert (Hle : length (filter p (filter q l)) <= length (filter p l)).
  { clear. induction l as [|z l IH]; simpl; [lia|].
    destruct (q z); simpl; destruct (p z); simpl; lia. }
  destruct Hin as [->|Hin].
  - rewrite Hq, Hp. simpl. lia.
  - specialize (IH Hin Hp Hq). destruct (q y); simpl; destruct (p y); simpl; lia.
Qed.

(** The keys of a page of objects under the prefix: deleting them never
    removes an object that is not under the prefix. *)
Lemma delete_keeps_others (page objs : Bucket) :
  (forall o, In o page -> under o = true) ->
  filter (fun o => negb (under o))
    (filter (fun o => negb (existsb (String.eqb (fst o)) (map fst page))) objs)
  = filter (fun o => negb (under o)) objs.
Proof.
  intros Hpage. induction objs as [|o objs IH]; simpl; [reflexivity|].
  destruct (existsb (String.eqb (fst o)) (map fst page)) eqn:E; simpl.
  - apply existsb_exists in E as [k [Hk Ek]]. apply String.eqb_eq in Ek.
    apply in_map_iff in Hk as [o' [Ho' Hin]]. specialize (Hpage o' Hin).
    simpl in Hpage. rewrite Ho', <- Ek in Hpage. rewrite Hpage. simpl. exact IH.
  - destruct (String.prefix P (fst o)); simpl; [exact IH | f_equal; exact IH].
Qed.

Lemma delete_all_under (objs : Bucket) :
  filter (fun o => negb (existsb (String.eqb (fst o)) (map fst (filter under objs)))) objs
  = filter (fun o => negb (under o)) objs.
Proof.
  assert (H : forall o, In o objs ->
            existsb (String.eqb (fst o)) (map fst (filter under objs)) = under o).
  { intros o Hin. destruct (String.prefix P (fst o)) eqn:E.
    - apply existsb_exists. exists (fst o). split; [|apply String.eqb_refl].
      apply in_map. apply filter_In. auto.
    - destruct (existsb _ _) eqn:X; [|reflexivity].
      apply existsb_exists in X as [k [Hk Ek]]. apply String.eqb_eq in Ek.
      apply in_map_iff in Hk as [o' [Ho' Hin']]. apply filter_In in Hin' as [_ Hu].
      simpl in Hu. rewrite Ho', <- Ek in Hu. congruence. }
  apply filter_ext_in. intros o Hin. rewrite (H o Hin). reflexivity.
Qed.

Lemma memory_flat_listing (objs : Bucket) :
  listObjectsV2 store objs (mkListInput Bkt P None None)
  = (objs,
     inr (mkListOutput
            (match firstn maxKeys (filter under objs) with
             | [] => Some []
             | _ :: _ =>
                 Some (map (fun o => mkS3Object (fst o) "" "")
                         (firstn maxKeys (filter under objs)))
             end)
            None (maxKeys <? length (filter under objs))%nat Bkt None
            (if (maxKeys <? length (filter under objs))%nat
             then Some (fst (last (firstn maxKeys (filter under objs)) (""%string, [])))
             else None))).
Proof. reflexivity. Qed.

Lemma memory_empties (fuel : nat) :
  1 <= maxKeys ->
  forall w : World store,
    length (filter under (remote w)) < fuel ->
    snd (emptyS3Directory store fuel Bkt P w) = Fulfilled tt /\
    remote (fst (emptyS3Directory store fuel Bkt P w))
    = filter (fun o => negb (under o)) (remote w).
Proof.
  intros Hk. induction fuel as [|fuel IH]; intros w Hlen; [lia|].
  rewrite emptyS3Directory_S.
  set (input := mkListInput Bkt P None None).
  pose proof (memory_flat_listing (remote w)) as Hl. fold input in Hl.
  set (pg := mkListOutput _ _ _ _ _ _) in Hl.
  assert (Hsend : send_ListObjectsV2 store input w
                  = (answered store (remote w) (ListObjectsV2Command input) w, Fulfilled pg)).
  { unfold send_ListObjectsV2. rewrite Hl. reflexivity. }
  rewrite (bind_fulfilled _ _ _ _ _ _ Hsend).
  set (wa := answered store (remote w) (ListObjectsV2Command input) w).
  rewrite (bind_fulfilled _ _ _ wa wa tt) by reflexivity.
  unfold delete_page. subst pg. cbn [out_Contents out_IsTruncated].
  destruct (firstn maxKeys (filter under (remote w))) as [|o page] eqn:Epage.
  - assert (Hnone : filter under (remote w) = []).
    { destruct (filter under (remote w)); [reflexivity|].
      destruct maxKeys; [lia | discriminate]. }
    split; [reflexivity|]. symmetry. apply (filter_negb_all under). exact Hnone.
  - assert (Hpage : forall x, In x (o :: page) -> under x = true).
    { intros x Hx. rewrite <- Epage in Hx. apply firstn_In in Hx.
      apply filter_In in Hx as [_ Hx]. exact Hx. }
    assert (Hkeys : map obj_Key (map (fun x : string * list S3Tag => mkS3Object (fst x) "" "")
                                   (o :: page)) = map fst (o :: page)).
    { rewrite map_map. reflexivity. }
    change (map (fun x : string * list S3Tag => mkS3Object (fst x) "" "") (o :: page))
      with (mkS3Object (fst o) "" ""
              :: map (fun x : string * list S3Tag => mkS3Object (fst x) "" "") page) in *.
    cbv iota. rewrite Hkeys.
    set (left_over := filter (fun x : string * list S3Tag =>
                                negb (existsb (String.eqb (fst x)) (map fst (o :: page))))
                        (remote w)).
    assert (Hdel : send_DeleteObjects store Bkt (map fst (o :: page)) wa
                   = (answered store left_over
                        (DeleteObjectsCommand Bkt (map fst (o :: page))) wa,
                      Fulfilled tt)) by reflexivity.
    rewrite (bind_fulfilled _ _ _ _ _ _ Hdel).
    destruct (maxKeys <? length (filter under (remote w)))%nat eqn:T.
    + match goal with |- context [emptyS3Directory _ fuel _ _ ?w1] =>
        destruct (IH w1) as [H1 H2]
      end.
      * change (length (filter under left_over) < fuel).
        assert (Ho : In o (remote w)).
        { assert (In o (filter under (remote w))) as Hin
            by (apply (firstn_In o maxKeys); rewrite Epage; left; reflexivity).
          apply filter_In in Hin. tauto. }
        assert (negb (existsb (String.eqb (fst o)) (map fst (o :: page))) = false) as Hq
          by (simpl; rewrite String.eqb_refl; reflexivity).
        pose proof (filter_filter_length under
                      (fun x => negb (existsb (String.eqb (fst x)) (map fst (o :: page))))
                      (remote w) o Ho (Hpage o (or_introl eq_refl)) Hq) as Hlt.
        fold left_over in Hlt. lia.
      * split; [exact H1|]. rewrite H2.
        change (filter (fun x => negb (under x)) left_over
                = filter (fun x => negb (under x)) (remote w)).
        apply delete_keeps_others. exact Hpage.
    + split; [reflexivity|].
      change (left_over = filter (fun x => negb (under x)) (remote w)).
      apply Nat.ltb_ge in T. rewrite firstn_all2 in Epage by exact T.
      subst left_over. rewrite <- Epage. apply delete_all_under.
Qed.

End MemoryDelete.

(** X24.  Against the in-memory bucket (flat listings of at most [maxKeys]
    keys a page, an empty array for a page without keys, DeleteObjects
    removing the keys it is given), emptying a prefix completes once the
    bound on the depth of the calls exceeds the number of objects under the
    prefix, and leaves exactly the objects whose key does not start with
    the prefix, in their order. *)
Theorem emptyS3Directory_empties_memory_bucket :
  forall (maxKeys fuel : nat) (Bucket Prefix : string) (w : World (memoryClient maxKeys true)),
    1 <= maxKeys ->
    length (filter (fun o => String.prefix Prefix (fst o)) (remote w)) < fuel ->
    let run := emptyS3Directory (memoryClient maxKeys true) fuel Bucket Prefix w in
    snd run = Fulfilled tt /\
    remote (fst run) = filter (fun o => negb (String.prefix Prefix (fst o))) (remote w).
Proof.
  intros maxKeys fuel Bucket Prefix w Hk Hlen. apply memory_empties; assumption.
Qed.

Lemma emptyS3Directory_empties_memory_bucket_witness :
  let run := emptyS3Directory (memoryClient 2 true) 4 "bucket" "p/"
               (world (client:=memoryClient 2 true) shelf) in
  snd run = Fulfilled tt /\ remote (fst run) = [("q/d"%string, [])].
Proof.
  apply (emptyS3Directory_empties_memory_bucket 2 4 "bucket" "p/"
           (world (client:=memoryClient 2 true) shelf)); simpl; lia.
Defined.

(* ------------------------------------------------------------------ *)
(** ** Uploads in progress *)

Section UploadFacts.

Variable number : Type.

Lemma keyed_update (id : string) (upd : UploadingFile number -> UploadingFile number)
    (prev : list (UploadingFile number)) :
  (forall u, up_id (upd u) = up_id u /\ up_name (upd u) = up_name u /\
             up_key (upd u) = up_key u) ->
  (forall u, up_error u = true -> up_error (upd u) = true) ->
  exists g : UploadingFile number -> UploadingFile number,
    map (fun u => if String.eqb (up_id u) id then upd u else u) prev = map g prev /\
    (forall u, up_id (g u) = up_id u /\ up_name (g u) = up_name u /\ up_key (g u) = up_key u) /\
    (forall u, up_id u <> id -> g u = u) /\
    (forall u, up_error u = true -> up_error (g u) = true).
Proof.
  intros Hkeep Herr.
  exists (fun u => if String.eqb (up_id u) id then upd u else u).
  split; [reflexivity|]. split; [|split].
  - intros u. destruct (String.eqb (up_id u) id); [apply Hkeep | auto].
  - intros u Hne. apply String.eqb_neq in Hne. rewrite Hne. reflexivity.
  - intros u He. destruct (String.eqb (up_id u) id); [apply Herr|]; exact He.
Qed.

Lemma on_event_as_map (id : string) (ev : UploadEvent number)
    (prev : list (UploadingFile number)) :
  exists g : UploadingFile number -> UploadingFile number,
    on_event id ev prev = map g prev /\
    (forall u, up_id (g u) = up_id u /\ up_name (g u) = up_name u /\ up_key (g u) = up_key u) /\
    (forall u, up_id u <> id -> g u = u) /\
    (forall u, up_error u = true -> up_error (g u) = true).
Proof.
  destruct ev as [percent| | |]; simpl;
    [unfold on_progress | unfold on_paused | unfold on_resumed | unfold on_error];
    apply keyed_update; intros u; simpl; auto.
Qed.

Lemma on_events_steady (evs : list (string * UploadEvent number))
    (prev : list (UploadingFile number)) :
  map up_id (on_events evs prev) = map up_id prev /\
  map up_name (on_events evs prev) = map up_name prev /\
  map up_key (on_events evs prev) = map up_key prev.
Proof.
  revert prev. induction evs as [|[id ev] evs IH]; intros prev; simpl; [auto|].
  destruct (on_event_as_map id ev prev) as [g [-> [Hg _]]].
  destruct (IH (map g prev)) as [H1 [H2 H3]]. rewrite H1, H2, H3, !map_map.
  repeat split; apply map_ext; intros u; apply Hg.
Qed.

Lemma on_events_others (evs : list (string * UploadEvent number))
    (prev : list (UploadingFile number))
    (i : nat) (u : UploadingFile number) :
  nth_error prev i = Some u ->
  (forall e, In e evs -> fst e <> up_id u) ->
  nth_error (on_events evs prev) i = Some u.
Proof.
  revert prev. induction evs as [|[id ev] evs IH]; intros prev Hu Hevs; simpl; [exact Hu|].
  apply IH; [|intros e He; apply Hevs; right; exact He].
  destruct (on_event_as_map id ev prev) as [g [-> [_ [Hg _]]]].
  rewrite nth_error_map, Hu. simpl. f_equal. apply Hg.
  intros E. apply (Hevs (id, ev)); [left; reflexivity | simpl; congruence].
Qed.

Lemma on_events_error (evs : list (string * UploadEvent number))
    (prev : list (UploadingFile number))
    (i : nat) (u : UploadingFile number) :
  nth_error prev i = Some u -> up_error u = true ->
  exists u', nth_error (on_events evs prev) i = Some u' /\
             up_error u' = true /\ up_id u' = up_id u.
Proof.
  revert prev u. induction evs as [|[id ev] evs IH]; intros prev u Hu He; simpl; [eauto|].
  destruct (on_event_as_map id ev prev) as [g [-> [Hid [_ Herr]]]].
  destruct (IH (map g prev) (g u)) as [u' [H1 [H2 H3]]].
  - rewrite nth_error_map, Hu. reflexivity.
  - apply Herr. exact He.
  - exists u'. repeat split; auto. rewrite H3. apply Hid.
Qed.

End UploadFacts.

(** X25.  Progress, pause, resume and error events never add or remove an
    upload and never change an entry's id, name or key; an upload none of
    the events belongs to keeps its entry exactly as it is, at its place. *)
Theorem upload_events_touch_own_entry :
  forall (number : Type) (evs : list (string * UploadEvent number))
         (prev : list (UploadingFile number)),
    map up_id (on_events evs prev) = map up_id prev /\
    map up_name (on_events evs prev) = map up_name prev /\
    map up_key (on_events evs prev) = map up_key prev /\
    forall i u,
      nth_error prev i = Some u ->
      (forall e, In e evs -> fst e <> up_id u) ->
      nth_error (on_events evs prev) i = Some u.
Proof.
  intros number evs prev. destruct (on_events_steady number evs prev) as [H1 [H2 H3]].
  repeat split; auto. intros i u. apply on_events_others.
Qed.

Lemma upload_events_touch_own_entry_witness :
  nth_error (on_events [("u1"%string, Progress 40); ("u1"%string, Paused);
                        ("u3"%string, Failed)]
               [mkUploadingFile "u1" "a.txt" "docs/a.txt" "running" 10 false;
                mkUploadingFile "u2" "b.txt" "docs/b.txt" "paused" 20 false]) 1
  = Some (mkUploadingFile "u2" "b.txt" "docs/b.txt" "paused" 20 false).
Proof.
  apply (proj2 (proj2 (proj2 (upload_events_touch_own_entry nat
           [("u1"%string, Progress 40); ("u1"%string, Paused); ("u3"%string, Failed)]
           [mkUploadingFile "u1" "a.txt" "docs/a.txt" "running" 10 false;
            mkUploadingFile "u2" "b.txt" "docs/b.txt" "paused" 20 false])))
           1 (mkUploadingFile "u2" "b.txt" "docs/b.txt" "paused" 20 false) eq_refl).
  intros e [<-|[<-|[<-|[]]]]; discriminate.
Defined.

(** X26.  The error handler marks the upload's entry and leaves its state
    and progress as they are; once marked, an entry stays marked through
    every later progress, pause, resume or error event. *)
Theorem upload_error_sticks :
  forall (number : Type) (id : string) (evs : list (string * UploadEvent number))
         (prev : list (UploadingFile number)) (i : nat) (u : UploadingFile number),
    nth_error prev i = Some u ->
    up_id u = id ->
    nth_error (on_error id prev) i
    = Some (mkUploadingFile (up_id u) (up_name u) (up_key u) (up_state u) (up_progress u)
              true) /\
    exists u', nth_error (on_events evs (on_error id prev)) i = Some u' /\
               up_error u' = true /\ up_id u' = id.
Proof.
  intros number id evs prev i u Hu Hid.
  assert (H : nth_error (on_error id prev) i
              = Some (mkUploadingFile (up_id u) (up_name u) (up_key u) (up_state u)
                        (up_progress u) true)).
  { unfold on_error. rewrite nth_error_map, Hu. simpl.
    rewrite Hid, String.eqb_refl. reflexivity. }
  split; [exact H|].
  destruct (on_events_error number evs (on_error id prev) i _ H eq_refl) as [u' [H1 [H2 H3]]].
  exists u'. repeat split; auto. rewrite H3. exact Hid.
Qed.

Lemma upload_error_sticks_witness :
  exists u',
    nth_error (on_events [("u1"%string, Progress 40); ("u1"%string, Resumed)]
                 (on_error "u1"
                    [mkUploadingFile "u1" "a.txt" "docs/a.txt" "paused" 10 false])) 0
    = Some u' /\ up_error u' = true /\ up_id u' = "u1"%string.
Proof.
  apply (proj2 (upload_error_sticks nat "u1"
                  [("u1"%string, Progress 40); ("u1"%string, Resumed)]
                  [mkUploadingFile "u1" "a.txt" "docs/a.txt" "paused" 10 false] 0
                  (mkUploadingFile "u1" "a.txt" "docs/a.txt" "paused" 10 false)
                  eq_refl eq_refl)).
Defined.

(** X27.  A progress event shows the upload as running whatever its state
    was: after a pause it undoes the pause.  A resume after a pause, and a
    pause after a resume, leave what the later event alone would. *)
Theorem upload_state_last_event_wins :
  forall (number : Type) (id : string) (percent : number)
         (prev : list (UploadingFile number)),
    on_progress id percent (on_paused id prev) = on_progress id percent prev /\
    on_resumed id (on_paused id prev) = on_resumed id prev /\
    on_paused id (on_resumed id prev) = on_paused id prev.
Proof.
  intros number id percent prev.
  unfold on_progress, on_paused, on_resumed. rewrite !map_map.
  repeat split; apply map_ext; intros u;
    destruct (String.eqb (up_id u) id) eqn:E; simpl; rewrite E; reflexivity.
Qed.

(** X28.  When an upload completes its entry is taken out of the uploads
    in progress, the others staying in order.  If the URL can be signed, a
    file with the upload's key as full path and the file's name is appended
    to the files; if signing fails, the files are left as they are, so the
    upload is in neither list. *)
Theorem upload_completed_moves_entry :
  forall (client : S3Client) (data : Drive) (number : Type)
         (region now id name size k : string) (cf : CurrentFolder)
         (uploads : list (UploadingFile number)) (w : World client),
    let after := on_completed data region now cf id name size k (uploads, w) in
    fst after = filter (fun u => negb (String.eqb (up_id u) id)) uploads /\
    (forall u, In u (fst after) <-> In u uploads /\ up_id u <> id) /\
    (forall url,
       getSignedUrl data (data_keys_Bucket data) k = Some url ->
       exists newFile,
         files (snd after) = Some (or_empty (files w) ++ [newFile]) /\
         file_fullPath newFile = k /\ file_name newFile = name /\ file_url newFile = url /\
         file_parent newFile = currentFolder_fullPath cf) /\
    (getSignedUrl data (data_keys_Bucket data) k = None -> snd after = w).
Proof.
  intros client data number region now id name size k cf uploads w after. subst after.
  unfold on_completed. simpl fst at 2 3. simpl snd at 2 3.
  destruct (getSignedUrl data (data_keys_Bucket data) k) as [url|]; simpl;
    (split; [reflexivity|]); (split; [|split]).
  - intros u. rewrite filter_In, negb_true_iff, String.eqb_neq. reflexivity.
  - intros url' E. inversion E. subst url'.
    exists (uploaded_file data region now cf name size k url).
    split; [destruct (files w); reflexivity|]. simpl. auto.
  - discriminate.
  - intros u. rewrite filter_In, negb_true_iff, String.eqb_neq. reflexivity.
  - discriminate.
  - reflexivity.
Qed.

Lemma upload_completed_moves_entry_witness :
  let after := on_completed drive "us-east-1" "2024-05-01T10:00:00.000Z" docs "u1" "a.txt" "1"
                 "docs/a.txt"
                 ([mkUploadingFile "u1" "a.txt" "docs/a.txt" "running" 100 false;
                   mkUploadingFile "u2" "b.txt" "docs/b.txt" "paused" 20 false],
                  world (client:=memory) shelf) in
  exists newFile,
    files (snd after) = Some ([] ++ [newFile]) /\
    file_fullPath newFile = "docs/a.txt"%string /\ file_name newFile = "a.txt"%string /\
    file_url newFile = "https://signed/docs/a.txt"%string /\
    file_parent newFile = "docs/"%string.
Proof.
  intros after.
  apply (proj1 (proj2 (proj2 (upload_completed_moves_entry memory drive nat "us-east-1"
           "2024-05-01T10:00:00.000Z" "u1" "a.txt" "1" "docs/a.txt" docs
           [mkUploadingFile "u1" "a.txt" "docs/a.txt" "running" 100 false;
            mkUploadingFile "u2" "b.txt" "docs/b.txt" "paused" 20 false]
           (world (client:=memory) shelf))))).
  reflexivity.
Defined.

(* ------------------------------------------------------------------ *)
(** ** Removing a file; the checks before an upload *)

(** X29.  [removeFile] takes the file out of the files shown before it asks
    the store, and whatever the store answers: when the DeleteObject request
    fails the call is rejected with that error and the file is gone from the
    list all the same.  It never returns [false]. *)
Theorem removeFile_is_optimistic :
  forall (client : S3Client) (data : Drive)
         (deleteObject : Remote client -> string -> string -> Remote client * option Error)
         (file : DriveFile) (w : World client) (shown : list DriveFile),
    files w = Some shown ->
    let run := removeFile client data deleteObject file w in
    let answer := deleteObject (remote w) (data_keys_Bucket data) (file_fullPath file) in
    files (fst run)
    = Some (filter (fun f => negb (String.eqb (file_fullPath f) (file_fullPath file))) shown) /\
    (forall f, In f shown -> file_fullPath f <> file_fullPath file ->
               exists left, files (fst run) = Some left /\ In f left) /\
    remote (fst run) = fst answer /\
    snd run = match snd answer with
              | None => Fulfilled true
              | Some e => Rejected e
              end.
Proof.
  intros client data deleteObject file w shown Hs run answer. subst run answer.
  unfold removeFile, bind, setFiles. simpl. rewrite Hs. simpl.
  destruct (deleteObject (remote w) (data_keys_Bucket data) (file_fullPath file))
    as [r [e|]]; simpl; repeat split;
    intros f Hin Hne; eexists; (split; [reflexivity|]);
      apply filter_In; (split; [exact Hin|]);
      apply negb_true_iff, String.eqb_neq; exact Hne.
Qed.

Lemma removeFile_is_optimistic_witness :
  let w := mkWorld (client:=memory) shelf [] [] None (Some docs) None (Some [docs_a; docs_b])
             false in
  let run := removeFile memory drive (fun r _ _ => (r, Some (ServiceException "AccessDenied")))
               docs_a w in
  files (fst run) = Some [docs_b] /\
  snd run = Rejected (ServiceException "AccessDenied").
Proof.
  intros w run.
  destruct (removeFile_is_optimistic memory drive
              (fun r _ _ => (r, Some (ServiceException "AccessDenied"))) docs_a w
              [docs_a; docs_b] eq_refl)
    as [H1 [_ [_ H4]]].
  split; [exact H1 | exact H4].
Defined.

Lemma has_reserved_spec (name : string) :
  has_reserved name = true <->
  exists c, In c (list_ascii_of_string name) /\
            In c ["#"; "$"; "["; "]"; "*"; "/"]%char.
Proof.
  induction name as [|d s IH]; simpl.
  - split; [discriminate | intros [c [[] _]]].
  - rewrite orb_true_iff, IH. unfold reserved. rewrite existsb_exists. split.
    + intros [[x [Hx E]]|[c [Hc Hl]]].
      * apply Ascii.eqb_eq in E. subst x. exists d. auto.
      * exists c. auto.
    + intros [c [[->|Hc] Hl]].
      * left. exists c. split; [exact Hl | apply Ascii.eqb_refl].
      * right. exists c. auto.
Qed.

Lemma same_name_count (files : list DriveFile) (name : string) :
  (0 <? length (filter (fun f => String.eqb (file_name f) name) files))%nat = true <->
  exists f, In f files /\ file_name f = name.
Proof.
  rewrite Nat.ltb_lt. split.
  - intros H. destruct (filter _ files) as [|f l] eqn:E; [simpl in H; lia|].
    assert (In f (filter (fun f => String.eqb (file_name f) name) files))
      by (rewrite E; left; reflexivity).
    apply filter_In in H0 as [Hin Hn]. apply String.eqb_eq in Hn. eauto.
  - intros [f [Hin Hn]].
    assert (In f (filter (fun f => String.eqb (file_name f) name) files))
      by (apply filter_In; split; [exact Hin | apply String.eqb_eq; exact Hn]).
    destruct (filter _ files); [contradiction | simpl; lia].
Qed.

(** X30.  [addFile] uploads a file exactly when its name has none of the
    characters # $ [ ] * / and no file loaded so far has that same name; a
    reserved character is reported first.  While no files are loaded (null)
    a duplicate name is not noticed. *)
Theorem addFile_check_accepts :
  forall (data : Drive) (cf : CurrentFolder) (files : option (list DriveFile)) (name : string),
    (addFile_check data cf files name = inr (addFile_Key data cf name) <->
     (forall c, In c (list_ascii_of_string name) ->
                ~ In c ["#"; "$"; "["; "]"; "*"; "/"]%char) /\
     (forall f, In f (or_empty files) -> file_name f <> name)) /\
    ((exists c, In c (list_ascii_of_string name) /\
                In c ["#"; "$"; "["; "]"; "*"; "/"]%char) ->
     addFile_check data cf files name
     = inl "File name cannot contain special characters (#$[]*/)."%string) /\
    (files = None ->
     (forall c, In c (list_ascii_of_string name) ->
                ~ In c ["#"; "$"; "["; "]"; "*"; "/"]%char) ->
     addFile_check data cf files name = inr (addFile_Key data cf name)).
Proof.
  intros data cf files name.
  assert (Hres : has_reserved name = false <->
                 forall c, In c (list_ascii_of_string name) ->
                           ~ In c ["#"; "$"; "["; "]"; "*"; "/"]%char).
  { rewrite <- not_true_iff_false, has_reserved_spec. split.
    - intros H c Hc Hl. apply H. eauto.
    - intros H [c [Hc Hl]]. exact (H c Hc Hl). }
  assert (Hdup : (0 <? length (filter (fun f => String.eqb (file_name f) name)
                                 (or_empty files)))%nat = false <->
                 forall f, In f (or_empty files) -> file_name f <> name).
  { rewrite <- not_true_iff_false, same_name_count. split.
    - intros H f Hf Hn. apply H. eauto.
    - intros H [f [Hf Hn]]. exact (H f Hf Hn). }
  unfold addFile_check. split; [|split].
  - rewrite <- Hres, <- Hdup.
    destruct (has_reserved name); [split; [discriminate | intros [? _]; discriminate]|].
    destruct (0 <? _)%nat; split; try discriminate; auto. intros [_ ?]. discriminate.
  - intros H. apply has_reserved_spec in H. rewrite H. reflexivity.
  - intros -> H. apply Hres in H. rewrite H. reflexivity.
Qed.

Lemma addFile_check_accepts_witness :
  addFile_check drive docs (Some [docs_a]) "a#b.txt"
  = inl "File name cannot contain special characters (#$[]*/)."%string /\
  addFile_check drive docs None "a.txt" = inr (inr "docs/a.txt"%string).
Proof.
  split.
  - apply (proj1 (proj2 (addFile_check_accepts drive docs (Some [docs_a]) "a#b.txt"))).
    exists "#"%char. simpl. auto.
  - apply (proj2 (proj2 (addFile_check_accepts drive docs None "a.txt")) eq_refl).
    intros c Hc Hl. simpl in Hc, Hl.
    repeat (destruct Hc as [<-|Hc]; [repeat (destruct Hl as [Hl|Hl]; try discriminate); exact Hl|]).
    exact Hc.
Defined.
